(** * System76LedControl: the keyboard LED monitors of [led_control.py]

    A shallow embedding of [src/led_control.py] and the properties of its
    colour codec, of [Monitor] construction and of the three monitor
    variants ([site_health], [load_average], [pulse]).

    Conventions of the embedding:
    - a Python number (an [int] or a finite [float]) is the rational it
      denotes ([Qc], rationals in lowest terms, with Leibniz equality);
      a Python [int] is a [Z];
    - every floating-point operation is the exact operation followed by a
      rounding [rnd], of which only two facts are used: it leaves integers
      of magnitude at most 2^53 alone, and it is monotone.  IEEE-754
      round-to-nearest on doubles is such a function, and so is exact
      arithmetic.  Where the code can leave the range of doubles on
      [int] input, in [pulse.update], the model does what Python does: a
      quotient of two [int]s too large for a float raises
      [OverflowError], a sum of floats too large is infinite, and [int]
      refuses an infinite float;
    - the outside world (clock, HTTP endpoint, load average, sysfs files)
      is an explicit [world] value threaded through every call;
    - a Python exception is a [Raise] result; the object under mutation is
      returned in either case, as the caller still holds it. *)

From Stdlib Require Import ZArith QArith Qcanon String Ascii List Lia HexString.
From stdpp Require Import base decidable option list strings gmap.

Local Open Scope string_scope.
Local Open Scope Z_scope.

(** ** Python numbers *)

Module PyNum.

Definition number := Qc.

(** An [int] seen as a number. *)
Definition of_int (z : Z) : number := Qc_of_Z z.

(** [int(x)]: truncation toward zero. *)
Definition py_int (x : number) : Z :=
  Z.quot (Qnum (this x)) (Zpos (Qden (this x))).

(** [x < y] as a boolean test. *)
Definition ltb (x y : number) : bool :=
  match (x ?= y)%Qc with Lt => true | _ => false end.

(** [min(a, b)] and [max(a, b)] of two arguments: the first one wins a
    tie, as in CPython.  On floats and on [int]s. *)
Definition py_min (a b : number) : number := if ltb b a then b else a.

Definition min_int (a b : Z) : Z := if b <? a then b else a.
Definition max_int (a b : Z) : Z := if a <? b then b else a.

(** The rounding of a real result to a float. *)
Class Rounding := {
  rnd : number -> number;
  rnd_int : forall z : Z, Z.abs z <= 2 ^ 53 -> rnd (of_int z) = of_int z;
  rnd_mono : forall x y : number, (x <= y)%Qc -> (rnd x <= rnd y)%Qc
}.

Section Float.
Context {R : Rounding}.

Definition fadd (x y : number) : number := rnd (x + y)%Qc.
Definition fsub (x y : number) : number := rnd (x - y)%Qc.
Definition fmul (x y : number) : number := rnd (x * y)%Qc.
Definition fdiv (x y : number) : number := rnd (x / y)%Qc.

(** The float of the quotient of two [int]s, rounded once; what [a / b]
    gives when it does not raise (see [int_truediv]). *)
Definition truediv (a b : Z) : number := rnd (of_int a / of_int b)%Qc.
End Float.

(** Exact arithmetic is a rounding. *)
Instance exact_arithmetic : Rounding :=
  {| rnd := fun x => x;
     rnd_int := fun z _ => eq_refl;
     rnd_mono := fun x y H => H |}.

End PyNum.
Import PyNum.

(** ** Python strings of digits *)

Module PyStr.

Definition hex_digit (d : Z) : ascii :=
  nth (Z.to_nat d) (list_ascii_of_string "0123456789abcdef") "0"%char.

(** The digits of a non-negative [n] in base 16, most significant first. *)
Fixpoint hex_digits (fuel : nat) (n : Z) (acc : string) : string :=
  match fuel with
  | O => acc
  | S k =>
      let acc' := String (hex_digit (n mod 16)) acc in
      if n / 16 =? 0 then acc' else hex_digits k (n / 16) acc'
  end.

Definition digits_fuel (n : Z) : nat := S (Z.to_nat (Z.log2 n)).

(** [hex(z)]: ["0x1f"], ["-0x1f"], ["0x0"]. *)
Definition hex (z : Z) : string :=
  if z <? 0 then "-0x" ++ hex_digits (digits_fuel (- z)) (- z) ""
  else "0x" ++ hex_digits (digits_fuel z) z "".

(** [s[2:]] *)
Definition from2 (s : string) : string :=
  substring 2 (String.length s - 2) s.

Fixpoint zeros (n : nat) : string :=
  match n with O => "" | S k => String "0" (zeros k) end.

(** ["{:0>2}".format(s)]: right-aligned in width 2, filled with ["0"];
    longer strings are left as they are. *)
Definition format_0gt2 (s : string) : string :=
  zeros (2 - String.length s) ++ s.

Definition dec_digit (d : Z) : ascii :=
  nth (Z.to_nat d) (list_ascii_of_string "0123456789") "0"%char.

Fixpoint dec_digits (fuel : nat) (n : Z) (acc : string) : string :=
  match fuel with
  | O => acc
  | S k =>
      let acc' := String (dec_digit (n mod 10)) acc in
      if n / 10 =? 0 then acc' else dec_digits k (n / 10) acc'
  end.

(** [str(z)] of an [int]. *)
Definition str (z : Z) : string :=
  if z <? 0 then "-" ++ dec_digits (digits_fuel (- z)) (- z) ""
  else dec_digits (digits_fuel z) z "".

End PyStr.
Import PyStr.

(** ** The colour codec *)

(** [int_to_hex(_int)], on the [int] it is given by [rgb_to_str]. *)
Definition int_to_hex (_int : Z) : string :=
  if 255 <? _int then "ff"
  else if _int <? 0 then "00"
  else format_0gt2 (from2 (hex _int)).

(** [rgb_to_str(_list)]: ["".join([int_to_hex(int(x)) for x in _list])]. *)
Definition rgb_to_str (_list : list number) : string :=
  foldr (fun x acc => int_to_hex (py_int x) ++ acc) "" _list.

(** ** The outside world *)

Inductive exn : Type :=
| AttributeError (msg : string)   (* raised by [Monitor.__init__] *)
| OSError (path : string)         (* [open(path, "w")] failed *)
| IndexError                      (* a list index out of range *)
| OverflowError.                  (* a result too large for a float, or
                                     [int] of an infinite float *)

Inductive result (A : Type) : Type :=
| Ok (a : A)
| Raise (e : exn).
Arguments Ok {A} a.
Arguments Raise {A} e.

(** What [requests.get] does: a response with its status code, or an
    exception (connection refused, timeout, ...). *)
Inductive http_result : Type :=
| Response (status_code : Z)
| RequestException.

Record request : Type := {
  req_url : string;
  req_headers : list (string * string);
  req_timeout : number
}.

Record world : Type := {
  clock : nat -> number;            (* the successive values of [time.time()] *)
  clock_reads : nat;                (* how many were read so far *)
  endpoint : nat -> http_result;    (* the successive outcomes of [requests.get] *)
  http_log : list request;          (* the requests issued, latest first *)
  loadavg : number;                 (* [os.getloadavg()[0]] *)
  writable : string -> bool;        (* can this path be opened for writing *)
  device_log : list (string * string) (* (path, payload) written, latest first *)
}.

Definition IO (A : Type) : Type := world -> result A * world.

Definition ret {A} (a : A) : IO A := fun w => (Ok a, w).

Definition bind {A B} (m : IO A) (k : A -> IO B) : IO B :=
  fun w =>
    match m w with
    | (Ok a, w') => k a w'
    | (Raise e, w') => (Raise e, w')
    end.

Notation "'let!' x := m 'in' k" := (bind m (fun x => k))
  (at level 10, x name, m at level 100, k at level 200).
Notation "'run' m ; k" := (bind m (fun _ => k))
  (at level 10, m at level 100, k at level 200).

(** [time.time()] *)
Definition time_time (w : world) : number * world :=
  (clock w (clock_reads w),
   {| clock := clock w; clock_reads := S (clock_reads w);
      endpoint := endpoint w; http_log := http_log w;
      loadavg := loadavg w; writable := writable w;
      device_log := device_log w |}).

(** [requests.get(url, headers=..., timeout=...)] *)
Definition requests_get (u : string) (h : list (string * string))
    (t : number) (w : world) : http_result * world :=
  (endpoint w (length (http_log w)),
   {| clock := clock w; clock_reads := clock_reads w;
      endpoint := endpoint w;
      http_log := {| req_url := u; req_headers := h; req_timeout := t |}
                    :: http_log w;
      loadavg := loadavg w; writable := writable w;
      device_log := device_log w |}).

(** [with open(path, "w") as fh: fh.write(payload)] *)
Definition open_write (path payload : string) : IO unit :=
  fun w =>
    if writable w path then
      (Ok tt,
       {| clock := clock w; clock_reads := clock_reads w;
          endpoint := endpoint w; http_log := http_log w;
          loadavg := loadavg w; writable := writable w;
          device_log := (path, payload) :: device_log w |})
    else (Raise (OSError path), w).

(** ** Monitor *)

Record Monitor : Type := {
  locations : gset string;
  current_colour : string
}.

Definition valid_locations : list string :=
  ["left"; "right"; "center"; "extra"].

Definition brightness_path : string :=
  "/sys/class/leds/system76::kbd_backlight/brightness".
Definition fn_prefix : string :=
  "/sys/class/leds/system76::kbd_backlight/color_".

(** [str] or a collection of [str]: what [locations] may be. *)
Inductive locations_arg : Type :=
| LocStr (s : string)
| LocList (l : list string).

(** The loop of [__init__] over [locations]. *)
Fixpoint add_locations (l : list string) (acc : gset string)
    : result (gset string) :=
  match l with
  | [] => Ok acc
  | location :: rest =>
      if bool_decide (location ∈ valid_locations)
      then add_locations rest (acc ∪ {[ location ]})
      else Raise (AttributeError (location ++ " is not a valid location"))
  end.

(** [Monitor._update_brighness] *)
Definition _update_brighness (brightness : number) : IO unit :=
  open_write brightness_path
    (str (max_int 100 (min_int 0 (py_int brightness)))).

Fixpoint write_colours (colour : string) (ls : list string) : IO unit :=
  match ls with
  | [] => ret tt
  | location :: rest =>
      run open_write (fn_prefix ++ location) colour;
      write_colours colour rest
  end.

(** [Monitor._update_leds]: the set is walked in the order of [elements]. *)
Definition _update_leds (self : Monitor) : IO unit :=
  write_colours (current_colour self) (elements (locations self)).

Definition normalise (locs : locations_arg) : list string :=
  match locs with LocStr s => [s] | LocList l => l end.

(** [Monitor.__init__] *)
Definition Monitor_init (locs : locations_arg) (default : option string)
    : IO Monitor :=
  fun w =>
    match add_locations (normalise locs) ∅ with
    | Raise e => (Raise e, w)
    | Ok set =>
        let self :=
          {| locations := set;
             current_colour :=
               match default with
               | None => rgb_to_str [of_int 0; of_int 0; of_int 255]
               | Some d => d
               end |} in
        (run _update_leds self;
         run _update_brighness (of_int 100);
         ret self) w
    end.

(** [Monitor.update]: [pass]. *)
Definition Monitor_update (self : Monitor) (w : world)
    : result unit * Monitor * world :=
  (Ok tt, self, w).

Definition set_colour (self : Monitor) (c : string) : Monitor :=
  {| locations := locations self; current_colour := c |}.

(** ** site_health *)

Inductive status : Type := unknown | good | degraded | bad.

(** The class attribute [status_colours]. *)
Definition status_colours (k : status) : string :=
  match k with
  | unknown => rgb_to_str [of_int 0; of_int 0; of_int 255]
  | good => rgb_to_str [of_int 0; of_int 255; of_int 0]
  | degraded => rgb_to_str [of_int 192; of_int 192; of_int 0]
  | bad => rgb_to_str [of_int 255; of_int 0; of_int 0]
  end.

Record site_health : Type := {
  sh_monitor : Monitor;
  url : string;
  headers : list (string * string);
  timeout : number;
  frequency : number;
  last_update : number
}.

Definition sh_set_colour (self : site_health) (c : string) : site_health :=
  {| sh_monitor := set_colour (sh_monitor self) c;
     url := url self; headers := headers self; timeout := timeout self;
     frequency := frequency self; last_update := last_update self |}.

Definition sh_set_last_update (self : site_health) (t : number)
    : site_health :=
  {| sh_monitor := sh_monitor self;
     url := url self; headers := headers self; timeout := timeout self;
     frequency := frequency self; last_update := t |}.

(** [site_health.__init__(locations, url, headers=None, timeout=5,
    frequency=10)]; [last_update] is the class attribute [0] until the
    first update stores one on the instance. *)
Definition site_health_init (locs : locations_arg) (u : string)
    (h : option (list (string * string))) (t f : option number)
    : IO site_health :=
  let! m := Monitor_init locs (Some (status_colours unknown)) in
  ret {| sh_monitor := m;
         url := u;
         headers := match h with None => [] | Some h => h end;
         timeout := match t with None => of_int 5 | Some t => t end;
         frequency := match f with None => of_int 10 | Some f => f end;
         last_update := of_int 0 |}.

Section Variants.
Context {R : Rounding}.

(** The test of line 78 on the reading [now] of the clock. *)
Definition rate_limited (self : site_health) (now : number) : bool :=
  ltb (fsub now (last_update self)) (frequency self).

(** Lines 81 to 92: the request and the colour it leads to. *)
Definition poll (self : site_health) (start : number) (w : world)
    : site_health * world :=
  match requests_get (url self) (headers self) (timeout self) w with
  | (RequestException, w1) =>
      (sh_set_colour self (status_colours unknown), w1)
  | (Response status_code, w1) =>
      if status_code =? 200 then
        let (t, w2) := time_time w1 in
        if ltb (fsub t start) (of_int 1)
        then (sh_set_colour self (status_colours good), w2)
        else (sh_set_colour self (status_colours degraded), w2)
      else (sh_set_colour self (status_colours bad), w1)
  end.

(** [site_health.update] *)
Definition site_health_update (self : site_health) (w : world)
    : result unit * site_health * world :=
  let (now, w0) := time_time w in
  if rate_limited self now then (Ok tt, self, w0)
  else
    let (start, w1) := time_time w0 in
    let (self1, w2) := poll self start w1 in
    match _update_leds (sh_monitor self1) w2 with
    | (Raise e, w3) => (Raise e, self1, w3)
    | (Ok _, w3) =>
        let (t, w4) := time_time w3 in
        (Ok tt, sh_set_last_update self1 t, w4)
    end.

(** ** load_average *)

Record load_average : Type := { la_monitor : Monitor }.

Definition load_average_init (locs : locations_arg)
    (default : option string) : IO load_average :=
  let! m := Monitor_init locs default in
  ret {| la_monitor := m |}.

Definition cpu_cores : Z := 8.

(** [min(255 * os.getloadavg()[0] / cpu_cores, 255)] *)
Definition load_fraction (load : number) : number :=
  py_min (fdiv (fmul (of_int 255) load) (of_int cpu_cores)) (of_int 255).

(** [load_average.update] *)
Definition load_average_update (self : load_average) (w : world)
    : result unit * load_average * world :=
  let load_avg := load_fraction (loadavg w) in
  let self1 :=
    {| la_monitor :=
         set_colour (la_monitor self)
           (rgb_to_str [load_avg; fsub (of_int 255) load_avg; of_int 0]) |} in
  let (r, w1) := _update_leds (la_monitor self1) w in
  (r, self1, w1).

(** ** pulse *)

Record pulse : Type := {
  p_monitor : Monitor;
  a_colour : list Z;
  b_colour : list Z;
  position : Z;
  speed : Z
}.

Definition pulse_init (locs : locations_arg) (default : option string)
    (a b : option (list Z)) (sp : option Z) : IO pulse :=
  let! m := Monitor_init locs default in
  ret {| p_monitor := m;
         a_colour := match a with None => [0; 0; 255] | Some a => a end;
         b_colour := match b with None => [255; 0; 0] | Some b => b end;
         position := 0;
         speed := match sp with None => 5 | Some sp => sp end |}.

(** A real result rounds to a finite double when its magnitude is below
    [2^1024 - 2^970], half a unit in the last place above the largest
    double. *)
Definition float_limit : Z := 2 ^ 1024 - 2 ^ 970.

Definition too_large (q : number) : bool :=
  negb (ltb q (of_int float_limit)) || negb (ltb (of_int (- float_limit)) q).

(** A float: a finite one or an infinity.  The sign of an infinity is
    not kept, [int] being the only operation applied to it. *)
Inductive pyfloat : Type :=
| Finite (x : number)
| Infinite.

(** [a / b] on two [int]s, [b] not 0: [OverflowError] when the quotient
    is too large for a float. *)
Definition int_truediv (a b : Z) : result number :=
  if too_large (of_int a / of_int b)%Qc then Raise OverflowError
  else Ok (truediv a b).

(** [x + y] on two finite floats: an infinity when the sum is too large. *)
Definition float_add (x y : number) : pyfloat :=
  if too_large (x + y)%Qc then Infinite else Finite (fadd x y).

(** [a[x]*(100-p)/100+b[x]*p/100], evaluated from left to right: the
    products are [int]s, each [/] gives a float or raises, and [+] gives
    a float. *)
Definition channel (a b : list Z) (p : Z) (x : nat) : result pyfloat :=
  match a !! x with
  | None => Raise IndexError
  | Some ax =>
      match int_truediv (ax * (100 - p)) 100 with
      | Raise e => Raise e
      | Ok q1 =>
          match b !! x with
          | None => Raise IndexError
          | Some bx =>
              match int_truediv (bx * p) 100 with
              | Raise e => Raise e
              | Ok q2 => Ok (float_add q1 q2)
              end
          end
      end
  end.

(** [[int(x) for x in _list]] on floats: [int] raises [OverflowError] on
    an infinity. *)
Fixpoint ints_of (l : list pyfloat) : result (list number) :=
  match l with
  | [] => Ok []
  | Infinite :: _ => Raise OverflowError
  | Finite x :: rest =>
      match ints_of rest with
      | Raise e => Raise e
      | Ok xs => Ok (x :: xs)
      end
  end.

(** [rgb_to_str(colour)] on the floats of [pulse.update]. *)
Definition rgb_to_str_floats (colour : list pyfloat) : result string :=
  match ints_of colour with
  | Raise e => Raise e
  | Ok xs => Ok (rgb_to_str xs)
  end.

(** [[... for x in range(3)]] *)
Fixpoint comprehension {A : Type} (f : nat -> result A) (xs : list nat)
    : result (list A) :=
  match xs with
  | [] => Ok []
  | x :: rest =>
      match f x with
      | Raise e => Raise e
      | Ok v =>
          match comprehension f rest with
          | Raise e => Raise e
          | Ok vs => Ok (v :: vs)
          end
      end
  end.

Definition p_set_colour (self : pulse) (c : string) : pulse :=
  {| p_monitor := set_colour (p_monitor self) c;
     a_colour := a_colour self; b_colour := b_colour self;
     position := position self; speed := speed self |}.

Definition p_set_position (self : pulse) (p : Z) : pulse :=
  {| p_monitor := p_monitor self;
     a_colour := a_colour self; b_colour := b_colour self;
     position := p; speed := speed self |}.

(** [pulse.update] *)
Definition pulse_update (self : pulse) (w : world)
    : result unit * pulse * world :=
  let p := position self in
  match comprehension (channel (a_colour self) (b_colour self) p)
          [0; 1; 2]%nat with
  | Raise e => (Raise e, self, w)
  | Ok colour =>
      match rgb_to_str_floats colour with
      | Raise e => (Raise e, self, w)
      | Ok hex_colour =>
          let self1 := p_set_colour self hex_colour in
          match _update_leds (p_monitor self1) w with
          | (Raise e, w1) => (Raise e, self1, w1)
          | (Ok _, w1) =>
              let self2 :=
                p_set_position self1 (position self1 + speed self1) in
              let self3 :=
                if 100 <? position self2 then p_set_position self2 0
                else self2 in
              (Ok tt, self3, w1)
          end
      end
  end.

(** ** Any monitor of the scheduler's list *)

Inductive monitor : Type :=
| Base (m : Monitor)
| Health (s : site_health)
| Load (l : load_average)
| Pulse (p : pulse).

Definition colour_of (m : monitor) : string :=
  match m with
  | Base m => current_colour m
  | Health s => current_colour (sh_monitor s)
  | Load l => current_colour (la_monitor l)
  | Pulse p => current_colour (p_monitor p)
  end.

(** [monitor.update()], dispatched on the class of the object. *)
Definition update (m : monitor) (w : world)
    : result unit * monitor * world :=
  match m with
  | Base m =>
      let '(r, m', w') := Monitor_update m w in (r, Base m', w')
  | Health s =>
      let '(r, s', w') := site_health_update s w in (r, Health s', w')
  | Load l =>
      let '(r, l', w') := load_average_update l w in (r, Load l', w')
  | Pulse p =>
      let '(r, p', w') := pulse_update p w in (r, Pulse p', w')
  end.

(** [n] successive updates, stopping at the first exception. *)
Fixpoint updates (n : nat) (m : monitor) (w : world)
    : result unit * monitor * world :=
  match n with
  | O => (Ok tt, m, w)
  | S k =>
      match update m w with
      | (Ok _, m', w') => updates k m' w'
      | (Raise e, m', w') => (Raise e, m', w')
      end
  end.

End Variants.

(** ** The specification's colour codec, in its own words *)

Module Spec.

(** Two lowercase hexadecimal digits of a value in 0..255. *)
Definition two_hex_digits (n : Z) : string :=
  String (hex_digit (n / 16)) (String (hex_digit (n mod 16)) "").

Definition clampChannelToHex (v : number) : string :=
  if ltb (of_int 255) v then "ff"
  else if ltb v (of_int 0) then "00"
  else two_hex_digits (py_int v).

Definition colorToHex (channels : number * number * number) : string :=
  let '(r, g, b) := channels in
  clampChannelToHex r ++ clampChannelToHex g ++ clampChannelToHex b.

Definition is_hex_char (c : ascii) : bool :=
  existsb (Ascii.eqb c) (list_ascii_of_string "0123456789abcdef").

(** A string of exactly 6 lowercase hexadecimal characters. *)
Definition is_hex_colour (s : string) : bool :=
  (String.length s =? 6)%nat
  && forallb is_hex_char (list_ascii_of_string s).

End Spec.
Import Spec.

(** A world at rest, with every sysfs file writable, the endpoint
    answering 200 and the clock advancing by a quarter of a second at
    each reading from 1000 on. *)
Definition world0 : world :=
  {| clock := fun n => Q2Qc (Qmake (4000 + Z.of_nat n) 4);
     clock_reads := O;
     endpoint := fun _ => Response 200;
     http_log := [];
     loadavg := of_int 0;
     writable := fun _ => true;
     device_log := [] |}.

(** The construction error of [Monitor.__init__]. *)
Definition construction_error {A : Type} (r : result A) : Prop :=
  exists msg, r = Raise (AttributeError msg).

(** Some supplied identifier is outside the fixed enumeration. *)
Definition has_invalid_zone (locs : locations_arg) : Prop :=
  exists l, l ∈ normalise locs /\ l ∉ valid_locations.

(** The entries of the device log for one colour on a list of zones. *)
Definition colour_writes (colour : string) (ls : list string)
    : list (string * string) :=
  map (fun l => (fn_prefix ++ l, colour)) ls.

Definition log_write (entries : list (string * string)) (w : world) : world :=
  {| clock := clock w; clock_reads := clock_reads w;
     endpoint := endpoint w; http_log := http_log w;
     loadavg := loadavg w; writable := writable w;
     device_log := entries ++ device_log w |}.

Definition all_writable (w : world) : Prop :=
  forall path, writable w path = true.

(** What [time.time()] is about to return. *)
Definition now (w : world) : number := clock w (clock_reads w).

(** The colour the specification gives to an outcome of the request and
    to the time it took. *)
Definition outcome_colour (r : http_result) (elapsed : number) : string :=
  match r with
  | Response status_code =>
      if status_code =? 200 then
        if ltb elapsed (of_int 1) then "00ff00" else "c0c000"
      else "ff0000"
  | RequestException => "0000ff"
  end.

(** A health monitor on the left zone, polling every 10 seconds, that
    last updated at time [t]. *)
Definition health_at (t : Z) : site_health :=
  {| sh_monitor := {| locations := {[ "left" ]}; current_colour := "0000ff" |};
     url := "http://localhost/health";
     headers := [];
     timeout := of_int 5;
     frequency := of_int 10;
     last_update := of_int t |}.

(** The world after [k] more readings of the clock. *)
Definition advance (k : nat) (w : world) : world :=
  {| clock := clock w; clock_reads := (k + clock_reads w)%nat;
     endpoint := endpoint w; http_log := http_log w;
     loadavg := loadavg w; writable := writable w;
     device_log := device_log w |}.

(** The world after one more request was sent. *)
Definition requested (q : request) (w : world) : world :=
  {| clock := clock w; clock_reads := clock_reads w;
     endpoint := endpoint w; http_log := q :: http_log w;
     loadavg := loadavg w; writable := writable w;
     device_log := device_log w |}.

Definition request_of (s : site_health) : request :=
  {| req_url := url s; req_headers := headers s; req_timeout := timeout s |}.

(** [x] is what a float computed for the integer [a]: [a] itself while
    [a] is exactly representable, and beyond that a value at least as far
    out as 2^53. *)
Definition tracks (x : number) (a : Z) : Prop :=
  (Z.abs a <= 2 ^ 53 /\ x = of_int a)
  \/ (2 ^ 53 < a /\ (of_int (2 ^ 53) <= x)%Qc)
  \/ (a < - 2 ^ 53 /\ (x <= of_int (- 2 ^ 53))%Qc).

(** A colour as three [int] channels, and the list it is in Python. *)
Definition rgb : Type := (Z * Z * Z)%type.

Definition channels (c : rgb) : list Z := let '(r, g, b) := c in [r; g; b].

Definition pulse_of (m : Monitor) (a b : rgb) (p sp : Z) : pulse :=
  {| p_monitor := m; a_colour := channels a; b_colour := channels b;
     position := p; speed := sp |}.

(** [n] successive calls of [pulse.update], up to the first exception. *)
Fixpoint pulse_updates {R : Rounding} (n : nat) (self : pulse) (w : world)
    : result unit * pulse * world :=
  match n with
  | O => (Ok tt, self, w)
  | S k =>
      match pulse_update self w with
      | (Ok _, self', w') => pulse_updates k self' w'
      | (Raise e, self', w') => (Raise e, self', w')
      end
  end.

(** The specification's interpolation of one channel at position [p]. *)
Definition interpolate {R : Rounding} (a b p : Z) : number :=
  fadd (truediv (a * (100 - p)) 100) (truediv (b * p) 100).

Definition interpolated {R : Rounding} (a b : rgb) (p : Z) : list number :=
  let '(a0, a1, a2) := a in
  let '(b0, b1, b2) := b in
  [interpolate a0 b0 p; interpolate a1 b1 p; interpolate a2 b2 p].

(** The pulse monitor of the specification's test: blue to red on the
    left zone, at position 0 with speed 5. *)
Definition pulse0 : pulse :=
  pulse_of {| locations := {[ "left" ]}; current_colour := "0000ff" |}
    (0, 0, 255) (255, 0, 0) 0 5.

Definition load0 : load_average :=
  {| la_monitor := {| locations := {[ "left" ]}; current_colour := "0000ff" |} |}.

(** No explicit default colour, or one that is itself a 6-character
    lowercase hex string. *)
Definition default_ok (default : option string) : bool :=
  match default with None => true | Some d => is_hex_colour d end.

(** A world whose endpoint gives [r] after [ms] milliseconds: the clock
    reads 1000 until the request is sent and [1000 + ms/1000] after. *)
Definition world_of (r : http_result) (ms : Z) : world :=
  {| clock := fun n => if (n <=? 1)%nat then of_int 1000
                       else Q2Qc (Qmake (1000000 + ms) 1000);
     clock_reads := O;
     endpoint := fun _ => r;
     http_log := [];
     loadavg := of_int 0;
     writable := fun _ => true;
     device_log := [] |}.

(** The colour a fresh health monitor shows after one update in [w]. *)
Definition colour_after_poll (w : world) : string :=
  current_colour
    (sh_monitor (snd (fst (site_health_update (R := exact_arithmetic) (health_at 0) w)))).

(** ** The scheduler's loop *)

(** One pass of [for monitor in monitors: monitor.update()] in [main]: the
    monitors are updated in list order and the first exception ends the
    pass, leaving the later monitors as they were. *)
Fixpoint update_all {R : Rounding} (monitors : list monitor) (w : world)
    : result unit * list monitor * world :=
  match monitors with
  | [] => (Ok tt, [], w)
  | m :: rest =>
      match update m w with
      | (Raise e, m', w') => (Raise e, m' :: rest, w')
      | (Ok _, m', w') =>
          let '(r, rest', w'') := update_all rest w' in
          (r, m' :: rest', w'')
      end
  end.

(** The first [n] iterations of the [while True] loop of [main];
    [time.sleep(0.1)] changes nothing the monitors can observe but the
    clock, which is read through [time.time()] only.  An exception ends
    the loop, and the process. *)
Fixpoint main_loop {R : Rounding} (n : nat) (monitors : list monitor)
    (w : world) : result unit * list monitor * world :=
  match n with
  | O => (Ok tt, monitors, w)
  | S k =>
      match update_all monitors w with
      | (Ok _, monitors', w') => main_loop k monitors' w'
      | (Raise e, monitors', w') => (Raise e, monitors', w')
      end
  end.

(** ** Views used by the statements *)

Definition zones_of (m : monitor) : gset string :=
  match m with
  | Base m => locations m
  | Health s => locations (sh_monitor s)
  | Load l => locations (la_monitor l)
  | Pulse p => locations (p_monitor p)
  end.

Definition is_health (m : monitor) : bool :=
  match m with Health _ => true | _ => false end.

(** Both colours of a pulse monitor have their three channels. *)
Definition three_channels (p : pulse) : bool :=
  (3 <=? length (a_colour p))%nat && (3 <=? length (b_colour p))%nat.

(** The settings of a monitor that [update()] has no business changing. *)
Inductive settings : Type :=
| BaseSettings (zones : gset string)
| HealthSettings (zones : gset string) (u : string)
    (h : list (string * string)) (t f : number)
| LoadSettings (zones : gset string)
| PulseSettings (zones : gset string) (a b : list Z) (sp : Z).

Definition settings_of (m : monitor) : settings :=
  match m with
  | Base m => BaseSettings (locations m)
  | Health s =>
      HealthSettings (locations (sh_monitor s)) (url s) (headers s)
        (timeout s) (frequency s)
  | Load l => LoadSettings (locations (la_monitor l))
  | Pulse p =>
      PulseSettings (locations (p_monitor p)) (a_colour p) (b_colour p)
        (speed p)
  end.

(** What a file holds: the payload of the latest write to [path]. *)
Fixpoint content (log : list (string * string)) (path : string)
    : option string :=
  match log with
  | [] => None
  | (p, payload) :: rest =>
      if String.eqb p path then Some payload else content rest path
  end.

(** The first identifier of a list that is not a zone. *)
Definition first_invalid (l : list string) : option string :=
  find (fun x => negb (bool_decide (x ∈ valid_locations))) l.

(** The hexadecimal number a string of digits denotes. *)
Definition hex_value (s : string) : Z := Z.of_N (HexString.Raw.to_N s 0).

(** A world like [world0] but where the file of zone "right" cannot be
    opened. *)
Definition world_right_missing : world :=
  {| clock := clock world0; clock_reads := O;
     endpoint := endpoint world0; http_log := [];
     loadavg := of_int 0;
     writable := fun path => negb (String.eqb path (fn_prefix ++ "right"));
     device_log := [] |}.

Definition monitor_on (zones : list string) : Monitor :=
  {| locations := list_to_set zones; current_colour := "0000ff" |}.

(** A world like [world0] but where the brightness file cannot be opened. *)
Definition world_brightness_missing : world :=
  {| clock := clock world0; clock_reads := O;
     endpoint := endpoint world0; http_log := [];
     loadavg := of_int 0;
     writable := fun path => negb (String.eqb path brightness_path);
     device_log := [] |}.

(** The monitors that write on every update: load and pulse. *)
Definition writes_every_tick (m : monitor) : bool :=
  match m with Load _ | Pulse _ => true | _ => false end.

(** The number of zone files the monitors of a list own between them. *)
Definition zone_count (monitors : list monitor) : nat :=
  foldr (fun m acc => (size (zones_of m) + acc)%nat) O monitors.

(** A pulse monitor whose first colour lacks a channel. *)
Definition pulse_short : pulse :=
  {| p_monitor := monitor_on ["left"]; a_colour := [0; 0];
     b_colour := [255; 0; 0]; position := 0; speed := 5 |}.

(** How many health monitors a list holds. *)
Definition health_count (monitors : list monitor) : nat :=
  foldr (fun m acc => ((if is_health m then 1 else 0) + acc)%nat) O monitors.

(** ** Colours within the range of floats *)

(** Every channel of a colour is at most [2^52] in magnitude. *)
Definition channels_bounded (c : list Z) : Prop :=
  Forall (fun x => Z.abs x <= 2 ^ 52) c.

(** The two products of line 133 are at most [100 * 2^52] in magnitude
    for every channel: each quotient and their sum are then far inside
    the range of floats. *)
Definition products_bounded (a b : list Z) (p : Z) : Prop :=
  Forall (fun x => Z.abs (x * (100 - p)) <= 100 * 2 ^ 52) a
  /\ Forall (fun x => Z.abs (x * p) <= 100 * 2 ^ 52) b.

(** A monitor whose updates stay in the range of floats for ever: for a
    pulse monitor, three bounded channels per colour, a position within
    0..100 and a speed that is not negative. *)
Definition steady (m : monitor) : Prop :=
  match m with
  | Pulse p =>
      three_channels p = true
      /\ channels_bounded (a_colour p) /\ channels_bounded (b_colour p)
      /\ 0 <= position p <= 100 /\ 0 <= speed p
  | _ => True
  end.

Definition is_load (m : monitor) : bool :=
  match m with Load _ => true | _ => false end.

(** A health monitor like [health_at 0] that shows green. *)
Definition health_green : site_health :=
  {| sh_monitor := {| locations := {[ "left" ]}; current_colour := "00ff00" |};
     url := "http://localhost/health";
     headers := [];
     timeout := of_int 5;
     frequency := of_int 10;
     last_update := of_int 0 |}.

(** The pulse monitor [pulse0] at the end of its ramp. *)
Definition pulse_at_100 : pulse :=
  pulse_of {| locations := {[ "left" ]}; current_colour := "0000ff" |}
    (0, 0, 255) (255, 0, 0) 100 5.

(** [q] lies between [-B] and [B]. *)
Definition within (B : Z) (q : number) : Prop :=
  (of_int (- B) <= q)%Qc /\ (q <= of_int B)%Qc.

(** * Properties *)

(** ** Numbers *)

Lemma this_of_int (z : Z) : this (of_int z) = inject_Z z.
Proof. reflexivity. Qed.

Lemma py_int_of_int (z : Z) : py_int (of_int z) = z.
Proof.
  unfold py_int. rewrite this_of_int. simpl. apply Z.quot_1_r.
Qed.

Lemma ltb_lt (x y : number) : ltb x y = true <-> (x < y)%Qc.
Proof.
  unfold ltb, Qclt, Qlt, Qccompare, Qcompare, Z.lt.
  destruct (_ ?= _)%Z; split; congruence.
Qed.

Lemma ltb_of_int_l (z : Z) (v : number) :
  ltb (of_int z) v = (z * Zpos (Qden (this v)) <? Qnum (this v)).
Proof.
  unfold ltb, Qccompare, Qcompare. rewrite this_of_int. simpl.
  rewrite Z.mul_1_r. unfold Z.ltb. reflexivity.
Qed.

Lemma ltb_of_int_r (z : Z) (v : number) :
  ltb v (of_int z) = (Qnum (this v) <? z * Zpos (Qden (this v))).
Proof.
  unfold ltb, Qccompare, Qcompare. rewrite this_of_int. simpl.
  rewrite Z.mul_1_r. unfold Z.ltb. reflexivity.
Qed.

Lemma of_int_le (a b : Z) : a <= b -> (of_int a <= of_int b)%Qc.
Proof. intros H. unfold of_int. rewrite <- Z2Qc_inj_le. exact H. Qed.

(** Truncation brackets: for [v = n/d], [int(v)] is [n ÷ d]. *)
Lemma py_int_above (z : Z) (v : number) :
  0 <= z -> ltb (of_int z) v = true -> z <= py_int v.
Proof.
  intros Hz H. rewrite ltb_of_int_l in H. apply Z.ltb_lt in H.
  unfold py_int. set (n := Qnum (this v)) in *.
  set (d := Zpos (Qden (this v))) in *.
  assert (0 < d) by (subst d; lia).
  rewrite Z.quot_div_nonneg by nia.
  apply Z.div_le_lower_bound; lia.
Qed.

Lemma py_int_negative (v : number) :
  ltb v (of_int 0) = true -> py_int v <= 0.
Proof.
  intros H. rewrite ltb_of_int_r in H. apply Z.ltb_lt in H.
  unfold py_int. set (n := Qnum (this v)) in *.
  set (d := Zpos (Qden (this v))) in *.
  assert (0 < d) by (subst d; lia).
  replace n with (- (- n)) by lia.
  rewrite Z.quot_opp_l by lia.
  assert (0 <= (- n) ÷ d) by (apply Z.quot_pos; lia). lia.
Qed.

Lemma py_int_between (lo hi : Z) (v : number) :
  0 <= lo ->
  ltb v (of_int lo) = false -> ltb (of_int hi) v = false ->
  lo <= py_int v <= hi.
Proof.
  intros Hlo H1 H2. rewrite ltb_of_int_r in H1. rewrite ltb_of_int_l in H2.
  apply Z.ltb_ge in H1, H2.
  unfold py_int. set (n := Qnum (this v)) in *.
  set (d := Zpos (Qden (this v))) in *.
  assert (0 < d) by (subst d; lia).
  rewrite Z.quot_div_nonneg by nia.
  split.
  - apply Z.div_le_lower_bound; lia.
  - apply Z.div_le_upper_bound; lia.
Qed.

Lemma py_int_ge (z : Z) (x : number) :
  0 <= z -> (of_int z <= x)%Qc -> z <= py_int x.
Proof.
  intros Hz H. unfold Qcle, Qle in H. rewrite this_of_int in H.
  simpl in H. rewrite Z.mul_1_r in H.
  unfold py_int. set (n := Qnum (this x)) in *.
  set (d := Zpos (Qden (this x))) in *.
  assert (0 < d) by (subst d; lia).
  rewrite Z.quot_div_nonneg by nia.
  apply Z.div_le_lower_bound; lia.
Qed.

Lemma py_int_le (z : Z) (x : number) :
  z <= 0 -> (x <= of_int z)%Qc -> py_int x <= z.
Proof.
  intros Hz H. unfold Qcle, Qle in H. rewrite this_of_int in H.
  simpl in H. rewrite Z.mul_1_r in H.
  unfold py_int. set (n := Qnum (this x)) in *.
  set (d := Zpos (Qden (this x))) in *.
  assert (0 < d) by (subst d; lia).
  replace n with (- (- n)) by lia.
  rewrite Z.quot_opp_l by lia.
  rewrite Z.quot_div_nonneg by nia.
  assert (- z <= (- n) / d) by (apply Z.div_le_lower_bound; lia). lia.
Qed.

Lemma of_int_mul_div (a b : Z) :
  b <> 0 -> (of_int (a * b) / of_int b)%Qc = of_int a.
Proof.
  intros Hb. unfold of_int. rewrite Z2Qc_inj_mul.
  apply Qcdiv_mult_l. rewrite <- Z2Qc_inj_0. intros H.
  apply Z2Qc_inj in H. contradiction.
Qed.

Lemma zero_div (b : Z) : b <> 0 -> (of_int 0 / of_int b)%Qc = of_int 0.
Proof.
  intros Hb. rewrite <- (of_int_mul_div 0 b Hb) at 2. reflexivity.
Qed.

Lemma plus_zero_r (x : number) : (x + of_int 0)%Qc = x.
Proof. unfold of_int. rewrite Z2Qc_inj_0. apply Qcplus_0_r. Qed.

Lemma plus_zero_l (x : number) : (of_int 0 + x)%Qc = x.
Proof. unfold of_int. rewrite Z2Qc_inj_0. apply Qcplus_0_l. Qed.

Section Tracking.
Context {R : Rounding}.

Lemma tracks_of_int (a : Z) : tracks (of_int a) a.
Proof.
  unfold tracks.
  destruct (Z_le_dec (Z.abs a) (2 ^ 53)) as [H | H]; [left; auto |].
  right. destruct (Z_lt_dec 0 a).
  - left. split; [lia | apply of_int_le; lia].
  - right. split; [lia | apply of_int_le; lia].
Qed.

Lemma tracks_rnd (x : number) (a : Z) : tracks x a -> tracks (rnd x) a.
Proof.
  intros [[Ha ->] | [[Ha Hx] | [Ha Hx]]].
  - left. split; [exact Ha | apply rnd_int, Ha].
  - right. left. split; [exact Ha |].
    rewrite <- (rnd_int (2 ^ 53)) by (vm_compute; discriminate).
    apply rnd_mono, Hx.
  - right. right. split; [exact Ha |].
    rewrite <- (rnd_int (- 2 ^ 53)) by (vm_compute; discriminate).
    apply rnd_mono, Hx.
Qed.

Lemma tracks_hex (x : number) (a : Z) :
  tracks x a -> int_to_hex (py_int x) = int_to_hex a.
Proof.
  intros [[Ha ->] | [[Ha Hx] | [Ha Hx]]].
  - rewrite py_int_of_int. reflexivity.
  - apply py_int_ge in Hx; [| vm_compute; discriminate].
    assert (2 ^ 53 = 9007199254740992) by reflexivity.
    unfold int_to_hex.
    replace (255 <? py_int x) with true by (symmetry; apply Z.ltb_lt; lia).
    replace (255 <? a) with true by (symmetry; apply Z.ltb_lt; lia).
    reflexivity.
  - apply py_int_le in Hx; [| vm_compute; discriminate].
    assert (2 ^ 53 = 9007199254740992) by reflexivity.
    unfold int_to_hex.
    replace (255 <? py_int x) with false by (symmetry; apply Z.ltb_ge; lia).
    replace (255 <? a) with false by (symmetry; apply Z.ltb_ge; lia).
    replace (py_int x <? 0) with true by (symmetry; apply Z.ltb_lt; lia).
    replace (a <? 0) with true by (symmetry; apply Z.ltb_lt; lia).
    reflexivity.
Qed.

(** At position 0 the interpolation is the first colour's channel, at
    position 100 the second colour's. *)
Lemma interpolate_0 (a b : Z) : tracks (interpolate a b 0) a.
Proof.
  unfold interpolate, fadd, truediv.
  replace (b * 0) with 0 by lia. replace (100 - 0) with 100 by lia.
  rewrite of_int_mul_div, zero_div by discriminate.
  rewrite (rnd_int 0) by (vm_compute; discriminate).
  rewrite plus_zero_r.
  apply tracks_rnd, tracks_rnd, tracks_of_int.
Qed.

Lemma interpolate_100 (a b : Z) : tracks (interpolate a b 100) b.
Proof.
  unfold interpolate, fadd, truediv.
  replace (a * (100 - 100)) with 0 by lia.
  rewrite of_int_mul_div, zero_div by discriminate.
  rewrite (rnd_int 0) by (vm_compute; discriminate).
  rewrite plus_zero_l.
  apply tracks_rnd, tracks_rnd, tracks_of_int.
Qed.

End Tracking.

(** ** The codec on one byte *)

Lemma byte_cases (P : Z -> Prop) :
  (forall n : nat, (n < 256)%nat -> P (Z.of_nat n)) ->
  forall z, 0 <= z <= 255 -> P z.
Proof.
  intros H z Hz. rewrite <- (Z2Nat.id z) by lia. apply H. lia.
Qed.

Lemma bounded_check (f : nat -> bool) (k : nat) :
  forallb f (seq 0 k) = true -> forall n, (n < k)%nat -> f n = true.
Proof.
  intros H n Hn. rewrite forallb_forall in H. apply H.
  apply in_seq. lia.
Qed.

Lemma int_to_hex_byte (z : Z) :
  0 <= z <= 255 -> int_to_hex z = two_hex_digits z.
Proof.
  revert z. apply byte_cases. intros n Hn.
  apply String.eqb_eq.
  apply (bounded_check
           (fun n => String.eqb (int_to_hex (Z.of_nat n))
                       (two_hex_digits (Z.of_nat n))) 256);
    [vm_compute; reflexivity | exact Hn].
Qed.

Lemma append_empty_r (s : string) : s ++ "" = s.
Proof.
  induction s as [| c s IH]; [reflexivity |].
  change (String c (s ++ "") = String c s). now rewrite IH.
Qed.

Lemma hex_digit_ok (d : Z) :
  0 <= d < 16 -> is_hex_char (hex_digit d) = true.
Proof.
  intros Hd. rewrite <- (Z2Nat.id d) by lia.
  apply (bounded_check (fun n => is_hex_char (hex_digit (Z.of_nat n))) 16);
    [vm_compute; reflexivity | lia].
Qed.

Lemma int_to_hex_is_two_hex (z : Z) :
  exists c1 c2, int_to_hex z = String c1 (String c2 "")
                /\ is_hex_char c1 = true /\ is_hex_char c2 = true.
Proof.
  destruct (Z_lt_dec 255 z) as [Hhi | Hhi].
  - exists "f"%char, "f"%char. unfold int_to_hex.
    replace (255 <? z) with true by (symmetry; apply Z.ltb_lt; lia). auto.
  - destruct (Z_lt_dec z 0) as [Hlo | Hlo].
    + exists "0"%char, "0"%char. unfold int_to_hex.
      replace (255 <? z) with false by (symmetry; apply Z.ltb_ge; lia).
      replace (z <? 0) with true by (symmetry; apply Z.ltb_lt; lia). auto.
    + rewrite int_to_hex_byte by lia.
      exists (hex_digit (z / 16)), (hex_digit (z mod 16)).
      split; [reflexivity |].
      split; apply hex_digit_ok.
      * split; [apply Z.div_pos; lia | apply Z.div_lt_upper_bound; lia].
      * apply Z.mod_pos_bound. lia.
Qed.

Lemma rgb_to_str_is_hex_colour (r g b : number) :
  is_hex_colour (rgb_to_str [r; g; b]) = true.
Proof.
  unfold rgb_to_str. cbn [foldr].
  destruct (int_to_hex_is_two_hex (py_int r)) as (r1 & r2 & -> & Hr1 & Hr2).
  destruct (int_to_hex_is_two_hex (py_int g)) as (g1 & g2 & -> & Hg1 & Hg2).
  destruct (int_to_hex_is_two_hex (py_int b)) as (b1 & b2 & -> & Hb1 & Hb2).
  unfold is_hex_colour.
  cbv [String.append String.length list_ascii_of_string forallb Nat.eqb andb].
  rewrite Hr1, Hr2, Hg1, Hg2, Hb1, Hb2. reflexivity.
Qed.

Lemma status_colours_is_hex_colour (k : status) :
  is_hex_colour (status_colours k) = true.
Proof. destruct k; apply rgb_to_str_is_hex_colour. Qed.

(** C6. Each channel, truncated by [int] and passed to [int_to_hex], gives
    "ff" above 255, "00" below 0 and otherwise the two lowercase hex
    digits of the truncated value; [rgb_to_str] concatenates the three
    channels in R, G, B order; and the three sample colours come out as
    "0000ff", "ff0000" and "ff0080". *)
Theorem colour_codec_matches_spec :
  (forall v : number, int_to_hex (py_int v) = clampChannelToHex v)
  /\ (forall r g b : number, rgb_to_str [r; g; b] = colorToHex (r, g, b))
  /\ rgb_to_str [of_int 0; of_int 0; of_int 255] = "0000ff"
  /\ rgb_to_str [of_int 255; of_int 0; of_int 0] = "ff0000"
  /\ rgb_to_str [of_int 300; of_int (-5); of_int 128] = "ff0080".
Proof.
  assert (Hch : forall v : number, int_to_hex (py_int v) = clampChannelToHex v).
  { intros v. unfold clampChannelToHex.
    destruct (ltb (of_int 255) v) eqn:Hhi.
    - apply py_int_above in Hhi; [| lia].
      destruct (Z.eq_dec (py_int v) 255) as [-> | Hne]; [reflexivity |].
      unfold int_to_hex.
      replace (255 <? py_int v) with true by (symmetry; apply Z.ltb_lt; lia).
      reflexivity.
    - destruct (ltb v (of_int 0)) eqn:Hlo.
      + apply py_int_negative in Hlo.
        destruct (Z.eq_dec (py_int v) 0) as [-> | Hne]; [reflexivity |].
        unfold int_to_hex.
        replace (255 <? py_int v) with false by (symmetry; apply Z.ltb_ge; lia).
        replace (py_int v <? 0) with true by (symmetry; apply Z.ltb_lt; lia).
        reflexivity.
      + apply int_to_hex_byte. apply py_int_between; [lia | assumption ..]. }
  split; [exact Hch |].
  split.
  - intros r g b. unfold rgb_to_str, colorToHex. cbn [foldr].
    rewrite !Hch, append_empty_r. reflexivity.
  - repeat split; vm_compute; reflexivity.
Qed.

(** ** Brightness *)

(** C4. Whatever brightness is asked for, [max(100, min(0, int(b)))] is
    100, so [_update_brighness] writes "100" to the brightness path; the
    value applied lies in [0,100]. *)
Theorem brightness_written_is_100 (brightness : number) (w : world) :
  max_int 100 (min_int 0 (py_int brightness)) = 100
  /\ _update_brighness brightness w = open_write brightness_path "100" w
  /\ 0 <= max_int 100 (min_int 0 (py_int brightness)) <= 100.
Proof.
  assert (H : max_int 100 (min_int 0 (py_int brightness)) = 100).
  { unfold max_int, min_int.
    destruct (py_int brightness <? 0) eqn:Hb.
    - apply Z.ltb_lt in Hb.
      replace (100 <? py_int brightness) with false
        by (symmetry; apply Z.ltb_ge; lia).
      reflexivity.
    - reflexivity. }
  split; [exact H |]. split.
  - unfold _update_brighness. rewrite H. reflexivity.
  - rewrite H. lia.
Qed.

(** ** Writing to the device *)

Lemma open_write_raises (path payload : string) (w w' : world) (e : exn) :
  open_write path payload w = (Raise e, w') -> e = OSError path /\ w' = w.
Proof.
  unfold open_write. destruct (writable w path); intros H; inversion H; auto.
Qed.

Lemma open_write_ok (path payload : string) (w : world) :
  writable w path = true ->
  open_write path payload w = (Ok tt, log_write [(path, payload)] w).
Proof. unfold open_write. intros ->. reflexivity. Qed.

Lemma write_colours_raises (colour : string) (ls : list string)
    (w w' : world) (e : exn) :
  write_colours colour ls w = (Raise e, w') -> exists path, e = OSError path.
Proof.
  revert w. induction ls as [| l ls IH]; intros w; simpl.
  - unfold ret. discriminate.
  - unfold bind. destruct (open_write _ _ w) as [[[] | e0] w0] eqn:Hw.
    + apply IH.
    + intros H. inversion H; subst.
      apply open_write_raises in Hw. destruct Hw as [-> _]. eauto.
Qed.

Lemma log_write_app (e1 e2 : list (string * string)) (w : world) :
  log_write e1 (log_write e2 w) = log_write (e1 ++ e2) w.
Proof. unfold log_write. simpl. rewrite app_assoc. reflexivity. Qed.

Lemma write_colours_ok (colour : string) (ls : list string) (w : world) :
  all_writable w ->
  write_colours colour ls w
  = (Ok tt, log_write (rev (colour_writes colour ls)) w).
Proof.
  revert w. induction ls as [| l ls IH]; intros w Hw; simpl.
  - unfold ret, log_write. destruct w; reflexivity.
  - unfold bind. rewrite open_write_ok by apply Hw.
    rewrite IH by (intros path; apply Hw).
    rewrite log_write_app. reflexivity.
Qed.

Lemma write_colours_frame (colour : string) (ls : list string)
    (w w' : world) (r : result unit) :
  write_colours colour ls w = (r, w') ->
  exists done, w' = log_write (rev (colour_writes colour done)) w
               /\ (r = Ok tt -> done = ls).
Proof.
  revert w. induction ls as [| l ls IH]; intros w; simpl.
  - unfold ret. intros H. injection H as <- <-. exists [].
    split; [destruct w; reflexivity | auto].
  - unfold bind. unfold open_write at 1.
    destruct (writable w (fn_prefix ++ l)).
    + intros H. apply IH in H. destruct H as (done & -> & Hdone).
      exists (l :: done). split.
      * unfold log_write. simpl. rewrite <- app_assoc. reflexivity.
      * intros Hr. rewrite (Hdone Hr). reflexivity.
    + intros H. injection H as <- <-. exists [].
      split; [destruct w; reflexivity | discriminate].
Qed.

Lemma update_leds_frame (self : Monitor) (w w' : world) (r : result unit) :
  _update_leds self w = (r, w') ->
  clock w' = clock w /\ clock_reads w' = clock_reads w
  /\ endpoint w' = endpoint w /\ http_log w' = http_log w
  /\ loadavg w' = loadavg w /\ writable w' = writable w.
Proof.
  intros H. apply write_colours_frame in H.
  destruct H as (done & -> & _). repeat split.
Qed.

Lemma update_leds_ok (self : Monitor) (w : world) :
  all_writable w ->
  _update_leds self w
  = (Ok tt,
     log_write (rev (colour_writes (current_colour self)
                       (elements (locations self)))) w).
Proof. apply write_colours_ok. Qed.

(** ** Construction *)

Lemma add_locations_valid (l : list string) (acc : gset string) :
  Forall (fun x => x ∈ valid_locations) l ->
  add_locations l acc = Ok (acc ∪ list_to_set l).
Proof.
  revert acc. induction l as [| x l IH]; intros acc Hall; simpl.
  - f_equal. symmetry. apply (right_id_L ∅ (∪)).
  - inversion Hall as [| ? ? Hx Hl]; subst.
    rewrite bool_decide_eq_true_2 by exact Hx.
    rewrite IH by exact Hl. f_equal. symmetry. apply (assoc_L (∪)).
Qed.

Lemma add_locations_invalid (l : list string) (acc : gset string) :
  Exists (fun x => x ∉ valid_locations) l ->
  construction_error (add_locations l acc).
Proof.
  revert acc. induction l as [| x l IH]; intros acc Hex; simpl.
  - inversion Hex.
  - destruct (bool_decide (x ∈ valid_locations)) eqn:Hx.
    + apply IH. inversion Hex as [? ? Hbad | ? ? Hrest]; subst.
      * apply bool_decide_eq_true in Hx. contradiction.
      * exact Hrest.
    + eexists. reflexivity.
Qed.

Lemma Monitor_init_error_iff (locs : locations_arg) (default : option string)
    (w : world) :
  construction_error (fst (Monitor_init locs default w))
  <-> has_invalid_zone locs.
Proof.
  unfold has_invalid_zone, Monitor_init.
  destruct (decide (Forall (fun x => x ∈ valid_locations) (normalise locs)))
    as [Hall | Hnot].
  - rewrite add_locations_valid by exact Hall. split.
    + intros [msg Hmsg]. exfalso. revert Hmsg. unfold bind.
      destruct (_update_leds _ w) as [[[] | e] w1] eqn:Hleds.
      * unfold _update_brighness.
        destruct (open_write _ _ w1) as [[[] | e] w2] eqn:Hb; simpl.
        -- unfold ret; simpl. discriminate.
        -- apply open_write_raises in Hb. destruct Hb as [-> _]. discriminate.
      * apply write_colours_raises in Hleds. destruct Hleds as [path ->].
        simpl. discriminate.
    + intros (l & Hin & Hbad). rewrite Forall_forall in Hall.
      exfalso. apply Hbad, Hall, Hin.
  - apply not_Forall_Exists in Hnot; [| intros x; apply _].
    split.
    + intros _. apply Exists_exists in Hnot.
      destruct Hnot as (l & Hin & Hbad). exists l. split; assumption.
    + intros _.
      destruct (add_locations_invalid _ ∅ Hnot) as [msg ->].
      exists msg. reflexivity.
Qed.

Lemma all_writable_log_write (entries : list (string * string)) (w : world) :
  all_writable w -> all_writable (log_write entries w).
Proof. intros H path. apply H. Qed.

Lemma Monitor_init_ok (locs : locations_arg) (default : option string)
    (w : world) :
  Forall (fun x => x ∈ valid_locations) (normalise locs) ->
  all_writable w ->
  exists m w',
    Monitor_init locs default w = (Ok m, w')
    /\ locations m = list_to_set (normalise locs)
    /\ current_colour m
       = match default with
         | None => rgb_to_str [of_int 0; of_int 0; of_int 255]
         | Some d => d
         end.
Proof.
  intros Hall Hw. unfold Monitor_init.
  rewrite add_locations_valid by exact Hall.
  unfold bind. rewrite update_leds_ok by exact Hw.
  unfold _update_brighness.
  rewrite open_write_ok by (apply all_writable_log_write, Hw).
  eexists. eexists. split; [reflexivity |]. simpl.
  split; [apply (left_id_L ∅ (∪)) | reflexivity].
Qed.

(** C5 (as amended). Construction raises the construction error exactly
    when some supplied identifier is outside {left, right, center, extra},
    a single string counting as a one-element collection; zone "top" is so
    refused; with the device writable, zone "center" is accepted, and so
    is an empty collection, which gives a monitor without zones. *)
Theorem construction_fails_iff_invalid_zone :
  (forall locs default w,
      construction_error (fst (Monitor_init locs default w))
      <-> has_invalid_zone locs)
  /\ (forall default w,
         construction_error (fst (Monitor_init (LocStr "top") default w)))
  /\ (forall default w, all_writable w ->
         exists m w',
           Monitor_init (LocStr "center") default w = (Ok m, w')
           /\ locations m = {[ "center" ]})
  /\ (forall default w, all_writable w ->
         exists m w',
           Monitor_init (LocList []) default w = (Ok m, w')
           /\ locations m = ∅).
Proof.
  split; [exact Monitor_init_error_iff |].
  split; [| split].
  - intros default w. apply Monitor_init_error_iff.
    exists "top". split.
    + simpl. apply list_elem_of_here.
    + unfold valid_locations. intros Hin.
      apply list_elem_of_In in Hin. simpl in Hin.
      repeat (destruct Hin as [Hin | Hin]; [discriminate |]). exact Hin.
  - intros default w Hw.
    destruct (Monitor_init_ok (LocStr "center") default w) as (m & w' & H & Hl & _).
    + simpl. constructor; [| constructor].
      apply list_elem_of_In. simpl. auto.
    + exact Hw.
    + exists m, w'. split; [exact H |]. rewrite Hl. simpl.
      apply (right_id_L ∅ (∪)).
  - intros default w Hw.
    destruct (Monitor_init_ok (LocList []) default w) as (m & w' & H & Hl & _).
    + simpl. constructor.
    + exact Hw.
    + exists m, w'. split; [exact H | exact Hl].
Qed.

Lemma world0_writable : all_writable world0.
Proof. intros path. reflexivity. Qed.

Lemma construction_fails_iff_invalid_zone_witness :
  exists m w',
    Monitor_init (LocStr "center") None world0 = (Ok m, w')
    /\ locations m = {[ "center" ]}.
Proof.
  apply (proj1 (proj2 (proj2 construction_fails_iff_invalid_zone))).
  exact world0_writable.
Defined.

(** C5 as stated fails: an empty collection of zones is not refused. *)
Lemma empty_zone_list_is_accepted :
  ~ (construction_error (fst (Monitor_init (LocList []) None world0))
     <-> (has_invalid_zone (LocList []) \/ normalise (LocList []) = [])).
Proof.
  intros [_ H].
  destruct (H (or_intror eq_refl)) as [msg Hmsg].
  destruct (Monitor_init_ok (LocList []) None world0) as (m & w' & Hok & _).
  - constructor.
  - exact world0_writable.
  - rewrite Hok in Hmsg. discriminate.
Qed.

(** ** The health monitor *)

Lemma time_time_eq (w : world) : time_time w = (now w, advance 1 w).
Proof. reflexivity. Qed.

Section Health.
Context {R : Rounding}.

Lemma limited_update (s : site_health) (w : world) :
  rate_limited s (now w) = true ->
  site_health_update s w = (Ok tt, s, advance 1 w).
Proof.
  intros H. unfold site_health_update. rewrite time_time_eq, H.
  reflexivity.
Qed.

(** What [poll] leaves behind: one more request in the log, the colour
    of the outcome, and the clock read once more when the status is 200. *)
Lemma poll_effect (s : site_health) (start : number) (w : world) :
  let r := endpoint w (length (http_log w)) in
  let extra := match r with
               | Response c => if c =? 200 then 1%nat else 0%nat
               | RequestException => 0%nat
               end in
  poll s start w
  = (sh_set_colour s (outcome_colour r (fsub (now w) start)),
     advance extra (requested (request_of s) w)).
Proof.
  unfold poll, requests_get, outcome_colour. cbv beta iota zeta.
  fold (request_of s). fold (requested (request_of s) w).
  destruct (endpoint w (length (http_log w))) as [c |]; [| reflexivity].
  destruct (c =? 200); [| reflexivity].
  rewrite time_time_eq.
  change (now (requested (request_of s) w)) with (now w).
  destruct (ltb _ _); reflexivity.
Qed.

Lemma unlimited_update (s : site_health) (w : world) :
  rate_limited s (now w) = false ->
  site_health_update s w
  = let (s1, w2) := poll s (now (advance 1 w)) (advance 2 w) in
    match _update_leds (sh_monitor s1) w2 with
    | (Raise e, w3) => (Raise e, s1, w3)
    | (Ok _, w3) => (Ok tt, sh_set_last_update s1 (now w3), advance 1 w3)
    end.
Proof.
  intros H. unfold site_health_update. rewrite time_time_eq, H.
  rewrite time_time_eq.
  change (advance 1 (advance 1 w)) with (advance 2 w).
  destruct (poll _ _ _) as [s1 w2].
  destruct (_update_leds _ w2) as [[[] | e] w3]; reflexivity.
Qed.

Lemma unlimited_update_cases (s : site_health) (w : world) :
  rate_limited s (now w) = false ->
  let r := endpoint w (length (http_log w)) in
  let s1 := sh_set_colour s
              (outcome_colour r (fsub (clock w (2 + clock_reads w))
                                   (clock w (1 + clock_reads w)))) in
  exists k : nat,
    (2 <= k)%nat
    /\ let w2 := advance k (requested (request_of s) w) in
       site_health_update s w
       = match _update_leds (sh_monitor s1) w2 with
         | (Raise e, w3) => (Raise e, s1, w3)
         | (Ok _, w3) =>
             (Ok tt, sh_set_last_update s1 (now w3), advance 1 w3)
         end.
Proof.
  intros H r s1. rewrite (unlimited_update s w H), poll_effect.
  cbv zeta. subst s1 r.
  change (http_log (advance 2 w)) with (http_log w).
  change (endpoint (advance 2 w)) with (endpoint w).
  change (now (advance 2 w)) with (clock w (2 + clock_reads w)).
  change (now (advance 1 w)) with (clock w (1 + clock_reads w)).
  destruct (endpoint w (length (http_log w))) as [c |];
    [destruct (c =? 200) |].
  - exists 3%nat. split; [lia | reflexivity].
  - exists 2%nat. split; [lia | reflexivity].
  - exists 2%nat. split; [lia | reflexivity].
Qed.

(** C1. A rate-limited [update()] returns at once: the monitor is
    unchanged, no request is sent and nothing is written, only the clock
    was read.  Hence an update that polls followed by one that is
    rate-limited send exactly one request between them. *)
Theorem rate_limited_update_is_silent :
  (forall s w,
      rate_limited s (now w) = true ->
      site_health_update s w = (Ok tt, s, advance 1 w)
      /\ http_log (advance 1 w) = http_log w
      /\ device_log (advance 1 w) = device_log w)
  /\ (forall s w r1 s1 w1 r2 s2 w2,
         rate_limited s (now w) = false ->
         site_health_update s w = (r1, s1, w1) ->
         rate_limited s1 (now w1) = true ->
         site_health_update s1 w1 = (r2, s2, w2) ->
         length (http_log w2) = S (length (http_log w))
         /\ s2 = s1 /\ device_log w2 = device_log w1).
Proof.
  split.
  - intros s w H. rewrite (limited_update s w H). auto.
  - intros s w r1 s1 w1 r2 s2 w2 H1 E1 H2 E2.
    rewrite (limited_update s1 w1 H2) in E2. inversion E2; subst.
    split; [| auto].
    destruct (unlimited_update_cases s w H1) as (k & _ & Hk).
    cbv zeta in Hk. rewrite Hk in E1. clear Hk.
    destruct (_update_leds _ _) as [[[] | e] w3] eqn:Hleds;
      inversion E1; subst; clear E1;
      apply update_leds_frame in Hleds;
      destruct Hleds as (_ & _ & _ & Hlog & _);
      simpl; rewrite Hlog; reflexivity.
Qed.

(** C2. When [update()] is not rate-limited, the colour it leaves is
    that of the outcome: "00ff00" for a 200 answered in under a second,
    "c0c000" for a slower 200, "ff0000" for any other status and
    "0000ff" when the request raised.  The elapsed time is the clock
    after the request minus the clock before it. *)
Theorem health_colour_follows_outcome (s : site_health) (w : world) :
  rate_limited s (now w) = false ->
  forall r s' w',
    site_health_update s w = (r, s', w') ->
    current_colour (sh_monitor s')
    = outcome_colour (endpoint w (length (http_log w)))
        (fsub (clock w (2 + clock_reads w)) (clock w (1 + clock_reads w))).
Proof.
  intros H r s' w' E.
  destruct (unlimited_update_cases s w H) as (k & _ & Hk).
  cbv zeta in Hk. rewrite Hk in E. clear Hk.
  destruct (_update_leds _ _) as [[[] | e] w3];
    inversion E; subst; reflexivity.
Qed.

(** C3. A request that raises does not make [update()] raise: with the
    device writable, every [update()] that is not rate-limited returns
    normally, whatever the endpoint did; the colour it chose (unknown
    when the request raised) was written to every zone, and
    [last_update] is the clock read at the very end.  The only
    exception [update()] can ever raise is that of a device write. *)
Theorem health_update_absorbs_failure :
  (forall s w,
      all_writable w ->
      rate_limited s (now w) = false ->
      exists s' w',
        site_health_update s w = (Ok tt, s', w')
        /\ (endpoint w (length (http_log w)) = RequestException ->
            current_colour (sh_monitor s') = status_colours unknown)
        /\ device_log w'
           = (rev (colour_writes (current_colour (sh_monitor s'))
                     (elements (locations (sh_monitor s))))
              ++ device_log w)%list
        /\ (forall l, l ∈ locations (sh_monitor s) ->
              In (fn_prefix ++ l, current_colour (sh_monitor s'))
                 (device_log w'))
        /\ exists n, (2 + clock_reads w <= n)%nat
                     /\ clock_reads w' = S n
                     /\ last_update s' = clock w n)
  /\ (forall s w r s' w',
         site_health_update s w = (r, s', w') ->
         r = Ok tt \/ exists path, r = Raise (OSError path)).
Proof.
  split.
  - intros s w Hw H.
    destruct (unlimited_update_cases s w H) as (k & Hk2 & Hk).
    cbv zeta in Hk. rewrite Hk. clear Hk.
    rewrite update_leds_ok by (intros path; apply Hw).
    eexists. eexists. split; [reflexivity |].
    split; [| split; [| split]].
    + intros ->. reflexivity.
    + reflexivity.
    + intros l Hl. simpl. apply in_or_app. left.
      apply in_rev. rewrite rev_involutive.
      unfold colour_writes. apply in_map_iff. exists l.
      split; [reflexivity |].
      apply list_elem_of_In, elem_of_elements, Hl.
    + exists (k + clock_reads w)%nat. simpl.
      split; [lia |]. split; reflexivity.
  - intros s w r s' w' E. unfold site_health_update in E.
    rewrite time_time_eq in E.
    destruct (rate_limited s (now w)).
    + inversion E. auto.
    + rewrite time_time_eq in E.
      destruct (poll _ _ _) as [s1 w2].
      destruct (_update_leds _ w2) as [[[] | e] w3] eqn:Hleds.
      * rewrite time_time_eq in E. inversion E. auto.
      * inversion E; subst. right.
        apply write_colours_raises in Hleds.
        destruct Hleds as [path ->]. exists path. reflexivity.
Qed.

End Health.

(** Runs of the health monitor under exact arithmetic. *)

Lemma rate_limited_update_is_silent_witness :
  (site_health_update (health_at 995) world0
   = (Ok tt, health_at 995, advance 1 world0)
   /\ http_log (advance 1 world0) = http_log world0
   /\ device_log (advance 1 world0) = device_log world0)
  /\ (let '(_, s1, w1) := site_health_update (health_at 0) world0 in
      let '(_, _, w2) := site_health_update s1 w1 in
      length (http_log w2) = 1%nat).
Proof.
  split.
  - apply (proj1 (rate_limited_update_is_silent (R := exact_arithmetic))).
    vm_compute. reflexivity.
  - destruct (site_health_update (health_at 0) world0) as [[r1 s1] w1] eqn:E1.
    destruct (site_health_update s1 w1) as [[r2 s2] w2] eqn:E2.
    refine (proj1 (proj2 (rate_limited_update_is_silent (R := exact_arithmetic))
                     (health_at 0) world0 r1 s1 w1 r2 s2 w2 _ E1 _ E2)).
    + vm_compute. reflexivity.
    + replace s1 with (snd (fst (site_health_update (health_at 0) world0)))
        by (rewrite E1; reflexivity).
      replace w1 with (snd (site_health_update (health_at 0) world0))
        by (rewrite E1; reflexivity).
      vm_compute. reflexivity.
Defined.

Lemma health_colour_follows_outcome_witness :
  current_colour
    (sh_monitor (snd (fst (site_health_update (health_at 0) world0))))
  = "00ff00".
Proof.
  destruct (site_health_update (health_at 0) world0) as [[r s'] w'] eqn:E.
  simpl.
  rewrite (health_colour_follows_outcome (R := exact_arithmetic) (health_at 0) world0
             ltac:(vm_compute; reflexivity) r s' w' E).
  vm_compute. reflexivity.
Defined.

Lemma health_update_absorbs_failure_witness :
  exists s' w',
    site_health_update (R := exact_arithmetic) health_green
      (world_of RequestException 200)
    = (Ok tt, s', w')
    /\ current_colour (sh_monitor s') = "0000ff"
    /\ In (fn_prefix ++ "left", "0000ff") (device_log w')
    /\ last_update s' = clock (world_of RequestException 200) 2.
Proof.
  destruct (proj1 (health_update_absorbs_failure (R := exact_arithmetic))
              health_green (world_of RequestException 200)
              ltac:(intros path; reflexivity)
              ltac:(vm_compute; reflexivity))
    as (s' & w' & E & Hunknown & _ & Hin & n & _ & Hreads & Hlast).
  assert (Hc : current_colour (sh_monitor s') = "0000ff")
    by (rewrite (Hunknown eq_refl); vm_compute; reflexivity).
  assert (Hn : n = 2%nat).
  { assert (H3 : clock_reads w' = 3%nat).
    { replace w' with (snd (site_health_update (R := exact_arithmetic)
                              health_green (world_of RequestException 200)))
        by (rewrite E; reflexivity).
      vm_compute. reflexivity. }
    rewrite H3 in Hreads. injection Hreads as <-. reflexivity. }
  exists s', w'. split; [exact E |]. split; [exact Hc |]. split.
  - rewrite <- Hc. apply Hin. simpl. apply elem_of_singleton. reflexivity.
  - rewrite Hlast, Hn. reflexivity.
Defined.

(** ** Floats within range *)

Lemma pow_52 : 2 ^ 52 = 4503599627370496.
Proof. reflexivity. Qed.

Lemma pow_53 : 2 ^ 53 = 9007199254740992.
Proof. reflexivity. Qed.

Lemma of_int_lt (a b : Z) : a < b -> (of_int a < of_int b)%Qc.
Proof. intros H. unfold of_int. rewrite <- Z2Qc_inj_lt. exact H. Qed.

Lemma Qc_zero_le_inv_100 : (0 <= / of_int 100)%Qc.
Proof. unfold Qcle. vm_compute. discriminate. Qed.

Lemma too_large_false (q : number) : within (2 ^ 53) q -> too_large q = false.
Proof.
  intros [Hlo Hhi]. unfold too_large.
  assert (H1 : ltb q (of_int float_limit) = true).
  { apply ltb_lt. eapply Qcle_lt_trans; [exact Hhi |].
    apply of_int_lt. vm_compute. reflexivity. }
  assert (H2 : ltb (of_int (- float_limit)) q = true).
  { apply ltb_lt. eapply Qclt_le_trans; [| exact Hlo].
    apply of_int_lt. vm_compute. reflexivity. }
  rewrite H1, H2. reflexivity.
Qed.

Lemma within_widen (B B' : Z) (q : number) :
  B <= B' -> within B q -> within B' q.
Proof.
  intros HB [Hlo Hhi]. split.
  - eapply Qcle_trans; [| exact Hlo]. apply of_int_le. lia.
  - eapply Qcle_trans; [exact Hhi |]. apply of_int_le. lia.
Qed.

Lemma quotient_within (n : Z) :
  Z.abs n <= 100 * 2 ^ 52 -> within (2 ^ 52) (of_int n / of_int 100)%Qc.
Proof.
  intros Hn.
  assert (Hlo : (of_int (- 2 ^ 52 * 100) / of_int 100
                 <= of_int n / of_int 100)%Qc).
  { unfold Qcdiv. apply Qcmult_le_compat_r; [| exact Qc_zero_le_inv_100].
    apply of_int_le. lia. }
  assert (Hhi : (of_int n / of_int 100
                 <= of_int (2 ^ 52 * 100) / of_int 100)%Qc).
  { unfold Qcdiv. apply Qcmult_le_compat_r; [| exact Qc_zero_le_inv_100].
    apply of_int_le. lia. }
  rewrite of_int_mul_div in Hlo, Hhi by discriminate.
  split; assumption.
Qed.

Lemma sum_within (x y : number) :
  within (2 ^ 52) x -> within (2 ^ 52) y -> within (2 ^ 53) (x + y)%Qc.
Proof.
  intros [Hx1 Hx2] [Hy1 Hy2]. split.
  - replace (of_int (- 2 ^ 53)) with (of_int (- 2 ^ 52) + of_int (- 2 ^ 52))%Qc.
    + apply Qcplus_le_compat; assumption.
    + unfold of_int. rewrite <- Z2Qc_inj_add. reflexivity.
  - replace (of_int (2 ^ 53)) with (of_int (2 ^ 52) + of_int (2 ^ 52))%Qc.
    + apply Qcplus_le_compat; assumption.
    + unfold of_int. rewrite <- Z2Qc_inj_add. reflexivity.
Qed.

Lemma products_bounded_of_channels (a b : list Z) (p : Z) :
  channels_bounded a -> channels_bounded b -> 0 <= p <= 100 ->
  products_bounded a b p.
Proof.
  unfold channels_bounded, products_bounded. rewrite pow_52.
  intros Ha Hb Hp. split.
  - eapply Forall_impl; [exact Ha |]. cbv beta. intros x Hx.
    rewrite Z.abs_mul. rewrite (Z.abs_eq (100 - p)) by lia. nia.
  - eapply Forall_impl; [exact Hb |]. cbv beta. intros x Hx.
    rewrite Z.abs_mul. rewrite (Z.abs_eq p) by lia. nia.
Qed.

Section Range.
Context {R : Rounding}.

Lemma rnd_within (B : Z) (q : number) :
  0 <= B <= 2 ^ 53 -> within B q -> within B (rnd q).
Proof.
  intros HB [Hlo Hhi]. split.
  - rewrite <- (rnd_int (- B)) by lia. apply rnd_mono, Hlo.
  - rewrite <- (rnd_int B) by lia. apply rnd_mono, Hhi.
Qed.

Lemma int_truediv_in_range (n : Z) :
  Z.abs n <= 100 * 2 ^ 52 ->
  int_truediv n 100 = Ok (truediv n 100)
  /\ within (2 ^ 52) (truediv n 100).
Proof.
  intros Hn. pose proof (quotient_within n Hn) as Hq. split.
  - unfold int_truediv. rewrite too_large_false; [reflexivity |].
    apply (within_widen (2 ^ 52)); [rewrite pow_52, pow_53; lia | exact Hq].
  - unfold truediv. apply rnd_within; [rewrite pow_52, pow_53; lia | exact Hq].
Qed.

Lemma float_add_in_range (x y : number) :
  within (2 ^ 52) x -> within (2 ^ 52) y ->
  float_add x y = Finite (fadd x y).
Proof.
  intros Hx Hy. unfold float_add.
  rewrite too_large_false; [reflexivity | apply sum_within; assumption].
Qed.

Lemma channel_in_range (a b : list Z) (p : Z) (x : nat) (ax bx : Z) :
  a !! x = Some ax -> b !! x = Some bx ->
  Z.abs (ax * (100 - p)) <= 100 * 2 ^ 52 ->
  Z.abs (bx * p) <= 100 * 2 ^ 52 ->
  channel a b p x = Ok (Finite (interpolate ax bx p)).
Proof.
  intros Ha Hb Hax Hbx. unfold channel. rewrite Ha, Hb.
  destruct (int_truediv_in_range _ Hax) as [-> H1].
  destruct (int_truediv_in_range _ Hbx) as [-> H2].
  rewrite (float_add_in_range _ _ H1 H2). reflexivity.
Qed.

(** The only exceptions of line 133. *)
Lemma channel_raises (a b : list Z) (p : Z) (x : nat) (e : exn) :
  channel a b p x = Raise e -> e = IndexError \/ e = OverflowError.
Proof.
  unfold channel, int_truediv.
  destruct (a !! x) as [ax |]; [| intros H; injection H as <-; auto].
  destruct (too_large _); [intros H; injection H as <-; auto |].
  destruct (b !! x) as [bx |]; [| intros H; injection H as <-; auto].
  destruct (too_large _); [intros H; injection H as <-; auto |].
  discriminate.
Qed.

Lemma channel_ok_lookup (a b : list Z) (p : Z) (x : nat) (v : pyfloat) :
  channel a b p x = Ok v -> is_Some (a !! x) /\ is_Some (b !! x).
Proof.
  unfold channel.
  destruct (a !! x) as [ax |]; [| discriminate].
  destruct (int_truediv _ _); [| discriminate].
  destruct (b !! x) as [bx |]; [| discriminate].
  intros _. split; eexists; reflexivity.
Qed.

(** A pulse monitor whose colours have their three channels and whose
    products are bounded: what one update does. *)
Lemma pulse_update_in_range (m : Monitor) (a0 a1 a2 b0 b1 b2 : Z)
    (ra rb : list Z) (p sp : Z) (w : world) :
  all_writable w ->
  products_bounded (a0 :: a1 :: a2 :: ra) (b0 :: b1 :: b2 :: rb) p ->
  let colour :=
    rgb_to_str [interpolate a0 b0 p; interpolate a1 b1 p;
                interpolate a2 b2 p] in
  pulse_update
    {| p_monitor := m; a_colour := a0 :: a1 :: a2 :: ra;
       b_colour := b0 :: b1 :: b2 :: rb; position := p; speed := sp |} w
  = (Ok tt,
     {| p_monitor := set_colour m colour; a_colour := a0 :: a1 :: a2 :: ra;
        b_colour := b0 :: b1 :: b2 :: rb;
        position := (if 100 <? p + sp then 0 else p + sp); speed := sp |},
     log_write (rev (colour_writes colour (elements (locations m)))) w).
Proof.
  intros Hw [Ha Hb] colour.
  inversion Ha as [| ? ? Ha0 Ha']; subst.
  inversion Ha' as [| ? ? Ha1 Ha'']; subst.
  inversion Ha'' as [| ? ? Ha2 _]; subst.
  inversion Hb as [| ? ? Hb0 Hb']; subst.
  inversion Hb' as [| ? ? Hb1 Hb'']; subst.
  inversion Hb'' as [| ? ? Hb2 _]; subst.
  unfold pulse_update. cbn [position a_colour b_colour comprehension].
  rewrite (channel_in_range (a0 :: a1 :: a2 :: ra) (b0 :: b1 :: b2 :: rb)
             p 0 a0 b0 eq_refl eq_refl Ha0 Hb0).
  rewrite (channel_in_range (a0 :: a1 :: a2 :: ra) (b0 :: b1 :: b2 :: rb)
             p 1 a1 b1 eq_refl eq_refl Ha1 Hb1).
  rewrite (channel_in_range (a0 :: a1 :: a2 :: ra) (b0 :: b1 :: b2 :: rb)
             p 2 a2 b2 eq_refl eq_refl Ha2 Hb2).
  cbn [rgb_to_str_floats ints_of]. fold colour.
  cbv zeta. rewrite update_leds_ok by exact Hw.
  cbn [p_set_colour p_set_position position speed p_monitor
       a_colour b_colour set_colour locations current_colour].
  destruct (100 <? p + sp); reflexivity.
Qed.

End Range.

(** ** The pulse monitor *)

Section Pulse.
Context {R : Rounding}.

Lemma pulse_step (m : Monitor) (a b : rgb) (p sp : Z) (w : world) :
  all_writable w ->
  products_bounded (channels a) (channels b) p ->
  let colour := rgb_to_str (interpolated a b p) in
  pulse_update (pulse_of m a b p sp) w
  = (Ok tt,
     pulse_of (set_colour m colour) a b
       (if 100 <? p + sp then 0 else p + sp) sp,
     log_write (rev (colour_writes colour (elements (locations m)))) w).
Proof.
  intros Hw Hb. destruct a as [[a0 a1] a2], b as [[b0 b1] b2].
  exact (pulse_update_in_range m a0 a1 a2 b0 b1 b2 [] [] p sp w Hw Hb).
Qed.

Lemma hex_of_tracked (x0 x1 x2 : number) (c0 c1 c2 : Z) :
  tracks x0 c0 -> tracks x1 c1 -> tracks x2 c2 ->
  rgb_to_str [x0; x1; x2] = rgb_to_str (map of_int [c0; c1; c2]).
Proof.
  intros H0 H1 H2. unfold rgb_to_str. cbn [foldr map].
  rewrite (tracks_hex _ _ H0), (tracks_hex _ _ H1), (tracks_hex _ _ H2).
  rewrite !py_int_of_int. reflexivity.
Qed.

(** C7. When the products of line 133 stay within the range of floats,
    as they do for channels of magnitude up to 2^52 at a position within
    0..100, [update()] writes the interpolation of the two colours at
    the position it had on entry; at position 0 this is the first
    colour's hex string and at position 100 the second colour's. *)
Theorem pulse_colour_is_interpolation :
  (forall m a b p sp w,
      all_writable w ->
      products_bounded (channels a) (channels b) p ->
      exists self' w',
        pulse_update (pulse_of m a b p sp) w = (Ok tt, self', w')
        /\ current_colour (p_monitor self')
           = rgb_to_str (interpolated a b p)
        /\ device_log w'
           = (rev (colour_writes (rgb_to_str (interpolated a b p))
                     (elements (locations m)))
              ++ device_log w)%list)
  /\ (forall a b p,
         channels_bounded (channels a) -> channels_bounded (channels b) ->
         0 <= p <= 100 ->
         products_bounded (channels a) (channels b) p)
  /\ (forall a b,
         rgb_to_str (interpolated a b 0)
         = rgb_to_str (map of_int (channels a)))
  /\ (forall a b,
         rgb_to_str (interpolated a b 100)
         = rgb_to_str (map of_int (channels b))).
Proof.
  split; [| split; [| split]].
  - intros m a b p sp w Hw Hb. rewrite (pulse_step m a b p sp w Hw Hb).
    eexists. eexists. split; [reflexivity |]. split; reflexivity.
  - intros a b p. apply products_bounded_of_channels.
  - intros [[a0 a1] a2] [[b0 b1] b2].
    apply hex_of_tracked; apply interpolate_0.
  - intros [[a0 a1] a2] [[b0 b1] b2].
    apply hex_of_tracked; apply interpolate_100.
Qed.

Lemma pulse_updates_S (n : nat) (m : Monitor) (a b : rgb) (p sp : Z)
    (w : world) :
  all_writable w ->
  products_bounded (channels a) (channels b) p ->
  exists m' w',
    all_writable w'
    /\ pulse_updates (S n) (pulse_of m a b p sp) w
       = pulse_updates n
           (pulse_of m' a b (if 100 <? p + sp then 0 else p + sp) sp) w'.
Proof.
  intros Hw Hb. cbn [pulse_updates]. rewrite (pulse_step m a b p sp w Hw Hb).
  cbv zeta. eexists. eexists. split; [| reflexivity].
  apply all_writable_log_write, Hw.
Qed.


Lemma pulse_updates_add (n k : nat) (self : pulse) (w : world) :
  pulse_updates (n + k) self w
  = match pulse_updates n self w with
    | (Ok _, self', w') => pulse_updates k self' w'
    | (Raise e, self', w') => (Raise e, self', w')
    end.
Proof.
  revert self w. induction n as [| n IH]; intros self w.
  - reflexivity.
  - cbn [Nat.add pulse_updates].
    destruct (pulse_update self w) as [[[[] | e] self1] w1];
      [apply IH | reflexivity].
Qed.


End Pulse.

Lemma blue_and_red_bounded :
  channels_bounded (channels (0, 0, 255))
  /\ channels_bounded (channels (255, 0, 0)).
Proof.
  split; repeat constructor; rewrite pow_52; simpl; lia.
Qed.

Lemma pulse_colour_is_interpolation_witness :
  exists self' w',
    pulse_update (R := exact_arithmetic) pulse_at_100 world0
    = (Ok tt, self', w')
    /\ current_colour (p_monitor self') = "ff0000".
Proof.
  destruct (pulse_colour_is_interpolation (R := exact_arithmetic))
    as (Hstep & Hbound & _ & H100).
  destruct (Hstep {| locations := {[ "left" ]}; current_colour := "0000ff" |}
              (0, 0, 255) (255, 0, 0) 100 5 world0 world0_writable)
    as (self' & w' & E & Hc & _).
  - apply Hbound; [apply blue_and_red_bounded .. | lia].
  - exists self', w'. split; [exact E |].
    rewrite Hc, H100. vm_compute. reflexivity.
Defined.



(** ** The load monitor *)

Section Load.
Context {R : Rounding}.


Lemma load_fraction_idle :
  py_min (fdiv (fmul (of_int 255) (of_int 0)) (of_int 8)) (of_int 255)
  = of_int 0.
Proof.
  unfold fmul, fdiv. unfold of_int at 1 2.
  rewrite <- Z2Qc_inj_mul. fold (of_int (255 * 0)).
  change (255 * 0) with 0.
  rewrite (rnd_int 0) by (vm_compute; discriminate).
  rewrite zero_div by discriminate.
  rewrite (rnd_int 0) by (vm_compute; discriminate).
  reflexivity.
Qed.


End Load.


(** ** The colour invariant *)

Lemma bind_ok {A B : Type} (m : IO A) (k : A -> IO B) (w w' : world) (b : B) :
  bind m k w = (Ok b, w') ->
  exists a w1, m w = (Ok a, w1) /\ k a w1 = (Ok b, w').
Proof.
  unfold bind. destruct (m w) as [[a | e] w1]; [eauto | discriminate].
Qed.

Lemma Monitor_init_colour (locs : locations_arg) (default : option string)
    (w w' : world) (m : Monitor) :
  Monitor_init locs default w = (Ok m, w') ->
  current_colour m
  = match default with
    | None => rgb_to_str [of_int 0; of_int 0; of_int 255]
    | Some d => d
    end.
Proof.
  unfold Monitor_init.
  destruct (add_locations (normalise locs) ∅) as [set | e]; [| discriminate].
  intros H.
  apply bind_ok in H. destruct H as (_ & w1 & _ & H).
  apply bind_ok in H. destruct H as (_ & w2 & _ & H).
  unfold ret in H. injection H as <- _. reflexivity.
Qed.

Lemma Monitor_init_hex (locs : locations_arg) (default : option string)
    (w w' : world) (m : Monitor) :
  default_ok default = true ->
  Monitor_init locs default w = (Ok m, w') ->
  is_hex_colour (current_colour m) = true.
Proof.
  intros Hd H. rewrite (Monitor_init_colour _ _ _ _ _ H).
  destruct default as [d |]; [exact Hd | apply rgb_to_str_is_hex_colour].
Qed.

Lemma outcome_colour_is_hex (r : http_result) (elapsed : number) :
  is_hex_colour (outcome_colour r elapsed) = true.
Proof.
  unfold outcome_colour. destruct r as [c |]; [| reflexivity].
  destruct (c =? 200); [destruct (ltb _ _) |]; reflexivity.
Qed.

Section Invariant.
Context {R : Rounding}.

Lemma site_health_update_hex (s : site_health) (w : world) :
  is_hex_colour (current_colour (sh_monitor s)) = true ->
  is_hex_colour
    (current_colour (sh_monitor (snd (fst (site_health_update s w)))))
  = true.
Proof.
  intros Hs. destruct (rate_limited s (now w)) eqn:Hlim.
  - rewrite (limited_update s w Hlim). exact Hs.
  - destruct (unlimited_update_cases s w Hlim) as (k & _ & Hk).
    cbv zeta in Hk. rewrite Hk.
    destruct (_update_leds _ _) as [[[] | e] w3];
      apply outcome_colour_is_hex.
Qed.

Lemma load_average_update_hex (l : load_average) (w : world) :
  is_hex_colour
    (current_colour (la_monitor (snd (fst (load_average_update l w)))))
  = true.
Proof.
  unfold load_average_update. cbv zeta.
  destruct (_update_leds _ w). apply rgb_to_str_is_hex_colour.
Qed.

Lemma comprehension_3 {A : Type} (f : nat -> result A) (colour : list A) :
  comprehension f [0; 1; 2]%nat = Ok colour ->
  exists x0 x1 x2, colour = [x0; x1; x2].
Proof.
  cbn [comprehension].
  destruct (f 0%nat) as [x0 |]; [| discriminate].
  destruct (f 1%nat) as [x1 |]; [| discriminate].
  destruct (f 2%nat) as [x2 |]; [| discriminate].
  intros H. injection H as <-. eauto.
Qed.

Lemma rgb_to_str_floats_3 (x0 x1 x2 : pyfloat) (c : string) :
  rgb_to_str_floats [x0; x1; x2] = Ok c ->
  exists y0 y1 y2, c = rgb_to_str [y0; y1; y2].
Proof.
  unfold rgb_to_str_floats. cbn [ints_of].
  destruct x0 as [y0 |], x1 as [y1 |], x2 as [y2 |]; try discriminate.
  intros H. injection H as <-. eauto.
Qed.

Lemma pulse_update_hex (p : pulse) (w : world) :
  is_hex_colour (current_colour (p_monitor p)) = true ->
  is_hex_colour (current_colour (p_monitor (snd (fst (pulse_update p w)))))
  = true.
Proof.
  intros Hp. unfold pulse_update.
  destruct (comprehension _ _) as [colour | e] eqn:Hc; [| exact Hp].
  apply comprehension_3 in Hc. destruct Hc as (x0 & x1 & x2 & ->).
  destruct (rgb_to_str_floats _) as [c | e] eqn:Hs; [| exact Hp].
  apply rgb_to_str_floats_3 in Hs. destruct Hs as (y0 & y1 & y2 & ->).
  destruct (_update_leds _ w) as [[[] | e] w1].
  - cbn [fst snd].
    destruct (100 <? _); apply rgb_to_str_is_hex_colour.
  - apply rgb_to_str_is_hex_colour.
Qed.

Lemma update_hex (m : monitor) (w : world) :
  is_hex_colour (colour_of m) = true ->
  is_hex_colour (colour_of (snd (fst (update m w)))) = true.
Proof.
  destruct m as [m | s | l | p]; intros Hm; unfold update.
  - exact Hm.
  - pose proof (site_health_update_hex s w Hm) as H.
    destruct (site_health_update s w) as [[r s'] w']. exact H.
  - pose proof (load_average_update_hex l w) as H.
    destruct (load_average_update l w) as [[r l'] w']. exact H.
  - pose proof (pulse_update_hex p w Hm) as H.
    destruct (pulse_update p w) as [[r p'] w']. exact H.
Qed.

(** C10. A monitor built without a default colour, or with a default
    that is a 6-character lowercase hex string, has such a string as
    its colour, and every [update()] of every variant keeps it so,
    whether it returns or raises, over any number of updates. *)
Theorem colour_stays_hex :
  (forall locs default w m w',
      default_ok default = true ->
      Monitor_init locs default w = (Ok m, w') ->
      is_hex_colour (colour_of (Base m)) = true)
  /\ (forall locs u h t f w s w',
         site_health_init locs u h t f w = (Ok s, w') ->
         is_hex_colour (colour_of (Health s)) = true)
  /\ (forall locs default w l w',
         default_ok default = true ->
         load_average_init locs default w = (Ok l, w') ->
         is_hex_colour (colour_of (Load l)) = true)
  /\ (forall locs default a b sp w p w',
         default_ok default = true ->
         pulse_init locs default a b sp w = (Ok p, w') ->
         is_hex_colour (colour_of (Pulse p)) = true)
  /\ (forall m w,
         is_hex_colour (colour_of m) = true ->
         is_hex_colour (colour_of (snd (fst (update m w)))) = true)
  /\ (forall n m w,
         is_hex_colour (colour_of m) = true ->
         is_hex_colour (colour_of (snd (fst (updates n m w)))) = true).
Proof.
  split; [| split; [| split; [| split; [| split]]]].
  - intros locs default w m w' Hd H. exact (Monitor_init_hex _ _ _ _ _ Hd H).
  - intros locs u h t f w s w' H. unfold site_health_init in H.
    apply bind_ok in H. destruct H as (m & w1 & Hm & H).
    unfold ret in H. injection H as <- _.
    apply (Monitor_init_hex locs (Some (status_colours unknown)) w w1 m);
      [apply status_colours_is_hex_colour | exact Hm].
  - intros locs default w l w' Hd H. unfold load_average_init in H.
    apply bind_ok in H. destruct H as (m & w1 & Hm & H).
    unfold ret in H. injection H as <- _.
    exact (Monitor_init_hex _ _ _ _ _ Hd Hm).
  - intros locs default a b sp w p w' Hd H. unfold pulse_init in H.
    apply bind_ok in H. destruct H as (m & w1 & Hm & H).
    unfold ret in H. injection H as <- _.
    exact (Monitor_init_hex _ _ _ _ _ Hd Hm).
  - exact update_hex.
  - intros n. induction n as [| n IH]; intros m w Hm; [exact Hm |].
    cbn [updates]. pose proof (update_hex m w Hm) as H.
    destruct (update m w) as [[[[] | e] m'] w']; [apply IH, H | exact H].
Qed.

End Invariant.

Lemma colour_stays_hex_witness :
  is_hex_colour
    (colour_of (snd (fst (updates (R := exact_arithmetic) 3 (Pulse pulse0) world0))))
  = true.
Proof.
  apply (proj2 (proj2 (proj2 (proj2 (proj2 (colour_stays_hex (R := exact_arithmetic))))))).
  reflexivity.
Defined.

(** ** Examples *)

Example hex_31 : hex 31 = "0x1f".
Proof. reflexivity. Qed.

Example hex_negative : hex (-255) = "-0xff".
Proof. reflexivity. Qed.

Example hex_4096 : hex 4096 = "0x1000".
Proof. reflexivity. Qed.

Example int_to_hex_5 : int_to_hex 5 = "05".
Proof. reflexivity. Qed.

(** 127.5 is truncated to 127, -0.5 to 0 and 255.9 to 255. *)
Example rgb_to_str_fractions :
  rgb_to_str [Q2Qc (Qmake 255 2); Q2Qc (Qmake (-1) 2); Q2Qc (Qmake 2559 10)]
  = "7f00ff".
Proof. vm_compute. reflexivity. Qed.

Example health_200_in_200ms :
  colour_after_poll (world_of (Response 200) 200) = "00ff00".
Proof. vm_compute. reflexivity. Qed.

Example health_200_in_1500ms :
  colour_after_poll (world_of (Response 200) 1500) = "c0c000".
Proof. vm_compute. reflexivity. Qed.

Example health_503 :
  colour_after_poll (world_of (Response 503) 200) = "ff0000".
Proof. vm_compute. reflexivity. Qed.

Example health_transport_error :
  colour_after_poll (world_of RequestException 200) = "0000ff".
Proof. vm_compute. reflexivity. Qed.

(** The pulse of the specification's test is half way after 10 updates:
    127.5 on the blue and red channels, truncated to 7f. *)
Example pulse_half_way :
  current_colour
    (p_monitor (snd (fst (pulse_updates (R := exact_arithmetic) 11 pulse0 world0))))
  = "7f007f".
Proof. vm_compute. reflexivity. Qed.

(** * Further properties of the code *)

(** ** The codec on arbitrary input *)

Lemma int_to_hex_high (z : Z) : 255 < z -> int_to_hex z = "ff".
Proof.
  intros H. unfold int_to_hex.
  replace (255 <? z) with true by (symmetry; apply Z.ltb_lt; lia).
  reflexivity.
Qed.

Lemma int_to_hex_low (z : Z) : z < 0 -> int_to_hex z = "00".
Proof.
  intros H. unfold int_to_hex.
  replace (255 <? z) with false by (symmetry; apply Z.ltb_ge; lia).
  replace (z <? 0) with true by (symmetry; apply Z.ltb_lt; lia).
  reflexivity.
Qed.

Lemma hex_value_byte (z : Z) :
  0 <= z <= 255 -> hex_value (int_to_hex z) = z.
Proof.
  revert z. apply byte_cases. intros n Hn.
  apply Z.eqb_eq.
  apply (bounded_check
           (fun n => hex_value (int_to_hex (Z.of_nat n)) =? Z.of_nat n) 256);
    [vm_compute; reflexivity | exact Hn].
Qed.

(** X1. Whatever [int] it is given, [int_to_hex] returns two characters,
    and read back as a hexadecimal number they are the input clamped to
    0..255: values in range survive the round trip, the others saturate. *)
Theorem int_to_hex_decodes_to_clamp (z : Z) :
  String.length (int_to_hex z) = 2%nat
  /\ hex_value (int_to_hex z) = Z.max 0 (Z.min 255 z).
Proof.
  split.
  - destruct (int_to_hex_is_two_hex z) as (c1 & c2 & -> & _). reflexivity.
  - destruct (Z_lt_dec 255 z) as [Hhi | Hhi].
    + rewrite int_to_hex_high by exact Hhi.
      replace (Z.max 0 (Z.min 255 z)) with 255 by lia. reflexivity.
    + destruct (Z_lt_dec z 0) as [Hlo | Hlo].
      * rewrite int_to_hex_low by exact Hlo.
        replace (Z.max 0 (Z.min 255 z)) with 0 by lia. reflexivity.
      * rewrite hex_value_byte by lia. lia.
Qed.

Lemma append_assoc (s1 s2 s3 : string) : (s1 ++ s2) ++ s3 = s1 ++ (s2 ++ s3).
Proof.
  induction s1 as [| c s1 IH]; [reflexivity |].
  change (String c ((s1 ++ s2) ++ s3) = String c (s1 ++ (s2 ++ s3))).
  now rewrite IH.
Qed.

Lemma rgb_to_str_cons (x : number) (l : list number) :
  rgb_to_str (x :: l) = int_to_hex (py_int x) ++ rgb_to_str l.
Proof. reflexivity. Qed.

Lemma rgb_to_str_app (l1 l2 : list number) :
  rgb_to_str (l1 ++ l2)%list = rgb_to_str l1 ++ rgb_to_str l2.
Proof.
  induction l1 as [| x l1 IH]; [reflexivity |].
  change ((x :: l1) ++ l2)%list with (x :: (l1 ++ l2))%list.
  rewrite !rgb_to_str_cons, IH, append_assoc. reflexivity.
Qed.

Lemma rgb_to_str_shape (l : list number) :
  String.length (rgb_to_str l) = (2 * length l)%nat
  /\ forallb is_hex_char (list_ascii_of_string (rgb_to_str l)) = true.
Proof.
  induction l as [| x l [IHlen IHhex]]; [split; reflexivity |].
  rewrite rgb_to_str_cons.
  destruct (int_to_hex_is_two_hex (py_int x)) as (c1 & c2 & -> & H1 & H2).
  change (String c1 (String c2 "") ++ rgb_to_str l)
    with (String c1 (String c2 (rgb_to_str l))).
  split.
  - cbn [String.length length]. rewrite IHlen. lia.
  - cbn [list_ascii_of_string forallb]. rewrite H1, H2, IHhex. reflexivity.
Qed.

(** X2. [rgb_to_str] works on a list of any length: it gives two
    lowercase hexadecimal characters per element, and the string of a
    concatenation is the concatenation of the strings; the empty list
    gives the empty string. *)
Theorem rgb_to_str_on_any_list :
  (forall l : list number,
      String.length (rgb_to_str l) = (2 * length l)%nat
      /\ forallb is_hex_char (list_ascii_of_string (rgb_to_str l)) = true)
  /\ (forall l1 l2 : list number,
         rgb_to_str (l1 ++ l2)%list = rgb_to_str l1 ++ rgb_to_str l2)
  /\ rgb_to_str [] = "".
Proof.
  split; [exact rgb_to_str_shape |].
  split; [exact rgb_to_str_app | reflexivity].
Qed.

(** ** What the device files hold *)

Lemma content_app (es log : list (string * string)) (path : string) :
  content (es ++ log)%list path
  = match content es path with
    | Some c => Some c
    | None => content log path
    end.
Proof.
  induction es as [| [p c] es IH]; [reflexivity |].
  cbn [app content]. destruct (String.eqb p path); [reflexivity | exact IH].
Qed.

Lemma content_In (es : list (string * string)) (path c : string) :
  content es path = Some c -> In (path, c) es.
Proof.
  induction es as [| [p c0] es IH]; cbn [content]; [discriminate |].
  destruct (String.eqb p path) eqn:Hp.
  - apply String.eqb_eq in Hp. intros H. injection H as <-. subst p.
    left. reflexivity.
  - intros H. right. apply IH, H.
Qed.

Lemma content_None (es : list (string * string)) (path : string) :
  (forall c, ~ In (path, c) es) -> content es path = None.
Proof.
  induction es as [| [p c0] es IH]; intros H; cbn [content]; [reflexivity |].
  destruct (String.eqb p path) eqn:Hp.
  - apply String.eqb_eq in Hp. subst p. exfalso. apply (H c0). left. reflexivity.
  - apply IH. intros c Hin. apply (H c). right. exact Hin.
Qed.

Lemma content_Some (es : list (string * string)) (path c : string) :
  In (path, c) es -> exists c', content es path = Some c'.
Proof.
  induction es as [| [p c0] es IH]; intros H; cbn [content]; [destruct H |].
  destruct (String.eqb p path) eqn:Hp; [eauto |].
  destruct H as [H | H]; [| apply IH, H].
  injection H as -> _. rewrite String.eqb_refl in Hp. discriminate.
Qed.

Lemma In_colour_writes (colour : string) (ls : list string)
    (path c : string) :
  In (path, c) (rev (colour_writes colour ls)) <->
  c = colour /\ exists l, In l ls /\ path = fn_prefix ++ l.
Proof.
  rewrite <- in_rev. unfold colour_writes. rewrite in_map_iff. split.
  - intros (l & H & Hl). injection H as <- <-. eauto.
  - intros (-> & l & Hl & ->). eauto.
Qed.

Lemma content_colour_writes_zone (colour : string) (ls : list string)
    (l : string) :
  In l ls ->
  content (rev (colour_writes colour ls)) (fn_prefix ++ l) = Some colour.
Proof.
  intros Hl.
  destruct (content_Some (rev (colour_writes colour ls)) (fn_prefix ++ l) colour)
    as [c' Hc'].
  - apply In_colour_writes. eauto.
  - rewrite Hc'. apply content_In, In_colour_writes in Hc'.
    destruct Hc' as [-> _]. reflexivity.
Qed.

Lemma content_colour_writes_other (colour : string) (ls : list string)
    (path : string) :
  (forall l, In l ls -> path <> fn_prefix ++ l) ->
  content (rev (colour_writes colour ls)) path = None.
Proof.
  intros H. apply content_None. intros c Hin.
  apply In_colour_writes in Hin. destruct Hin as (_ & l & Hl & ->).
  exact (H l Hl eq_refl).
Qed.

Lemma append_inj (s a b : string) : s ++ a = s ++ b -> a = b.
Proof.
  induction s as [| c s IH]; intros H; [exact H |].
  change (String c (s ++ a) = String c (s ++ b)) in H.
  injection H as H. apply IH, H.
Qed.

Lemma brightness_is_no_zone (l : string) : brightness_path <> fn_prefix ++ l.
Proof.
  unfold brightness_path, fn_prefix. cbv [String.append]. discriminate.
Qed.

Lemma length_colour_writes (colour : string) (ls : list string) :
  length (rev (colour_writes colour ls)) = length ls.
Proof.
  unfold colour_writes. rewrite length_rev, length_map. reflexivity.
Qed.

(** X3. With the zone files writable, [_update_leds] returns after one
    write per zone of the monitor: each of its zone files then holds the
    current colour, and every other file, the brightness file among them,
    holds what it held before. *)
Theorem update_leds_writes_exactly_its_zones (self : Monitor) (w : world) :
  all_writable w ->
  exists w',
    _update_leds self w = (Ok tt, w')
    /\ (forall l, l ∈ locations self ->
          content (device_log w') (fn_prefix ++ l)
          = Some (current_colour self))
    /\ (forall path,
          (forall l, l ∈ locations self -> path <> fn_prefix ++ l) ->
          content (device_log w') path = content (device_log w) path)
    /\ content (device_log w') brightness_path
       = content (device_log w) brightness_path
    /\ length (device_log w')
       = (size (locations self) + length (device_log w))%nat.
Proof.
  intros Hw. rewrite (update_leds_ok self w Hw).
  eexists. split; [reflexivity |]. cbn [device_log log_write].
  assert (Hother : forall path,
             (forall l, l ∈ locations self -> path <> fn_prefix ++ l) ->
             content
               (rev (colour_writes (current_colour self)
                       (elements (locations self))) ++ device_log w)%list path
             = content (device_log w) path).
  { intros path Hpath. rewrite content_app, content_colour_writes_other;
      [reflexivity |].
    intros l Hl. apply Hpath. apply elem_of_elements, list_elem_of_In, Hl. }
  split; [| split; [exact Hother | split]].
  - intros l Hl. rewrite content_app, content_colour_writes_zone;
      [reflexivity |].
    apply list_elem_of_In, elem_of_elements, Hl.
  - apply Hother. intros l _. apply brightness_is_no_zone.
  - rewrite length_app, length_colour_writes. reflexivity.
Qed.

Lemma update_leds_writes_exactly_its_zones_witness :
  exists w',
    _update_leds (monitor_on ["left"; "right"]) world0 = (Ok tt, w')
    /\ content (device_log w') (fn_prefix ++ "right") = Some "0000ff"
    /\ content (device_log w') (fn_prefix ++ "center") = None
    /\ length (device_log w') = 2%nat.
Proof.
  destruct (update_leds_writes_exactly_its_zones
              (monitor_on ["left"; "right"]) world0 world0_writable)
    as (w' & E & Hin & Hout & _ & Hlen).
  exists w'. split; [exact E |]. split; [| split].
  - apply Hin. apply elem_of_list_to_set, list_elem_of_In. simpl. auto.
  - rewrite Hout; [reflexivity |].
    intros l Hl H. apply append_inj in H. subst l.
    apply elem_of_list_to_set, list_elem_of_In in Hl. simpl in Hl.
    repeat (destruct Hl as [Hl | Hl]; [discriminate |]). exact Hl.
  - rewrite Hlen. vm_compute. reflexivity.
Defined.

Lemma log_write_nil (w : world) : log_write [] w = w.
Proof. destruct w. reflexivity. Qed.

Lemma write_colours_fails (colour : string) (ls : list string) (w : world) :
  (exists l, In l ls /\ writable w (fn_prefix ++ l) = false) ->
  exists done l rest,
    ls = (done ++ l :: rest)%list
    /\ writable w (fn_prefix ++ l) = false
    /\ (forall x, In x done -> writable w (fn_prefix ++ x) = true)
    /\ write_colours colour ls w
       = (Raise (OSError (fn_prefix ++ l)),
          log_write (rev (colour_writes colour done)) w).
Proof.
  revert w. induction ls as [| l0 ls IH]; intros w (l & Hl & Hbad).
  - destruct Hl.
  - cbn [write_colours]. unfold bind.
    destruct (writable w (fn_prefix ++ l0)) eqn:H0.
    + rewrite open_write_ok by exact H0.
      destruct Hl as [-> | Hl]; [congruence |].
      destruct (IH (log_write [(fn_prefix ++ l0, colour)] w))
        as (done & l1 & rest & -> & Hbad1 & Hdone & ->).
      { exists l. split; [exact Hl | exact Hbad]. }
      exists (l0 :: done), l1, rest.
      split; [reflexivity |]. split; [exact Hbad1 |]. split.
      * intros x [<- | Hx]; [exact H0 | apply Hdone, Hx].
      * rewrite log_write_app. cbn [colour_writes map rev].
        unfold colour_writes. reflexivity.
    + exists [], l0, ls. split; [reflexivity |]. split; [exact H0 |].
      split; [intros x [] |].
      unfold open_write. rewrite H0. rewrite log_write_nil. reflexivity.
Qed.

(** X4. When the file of one of its zones cannot be opened,
    [_update_leds] raises the [OSError] of such a zone: that file keeps
    what it held, the brightness file too, every file holds either what
    it held or the monitor's colour, and nothing but the device log has
    changed. *)
Theorem update_leds_stops_at_unwritable_zone (self : Monitor) (w : world) :
  (exists l, l ∈ locations self /\ writable w (fn_prefix ++ l) = false) ->
  exists l w',
    l ∈ locations self
    /\ writable w (fn_prefix ++ l) = false
    /\ _update_leds self w = (Raise (OSError (fn_prefix ++ l)), w')
    /\ content (device_log w') (fn_prefix ++ l)
       = content (device_log w) (fn_prefix ++ l)
    /\ content (device_log w') brightness_path
       = content (device_log w) brightness_path
    /\ (forall path,
          content (device_log w') path = content (device_log w) path
          \/ content (device_log w') path = Some (current_colour self))
    /\ http_log w' = http_log w /\ clock_reads w' = clock_reads w.
Proof.
  intros (l0 & Hl0 & Hbad0).
  destruct (write_colours_fails (current_colour self)
              (elements (locations self)) w)
    as (done & l & rest & Hel & Hbad & Hdone & E).
  { exists l0. split; [apply list_elem_of_In, elem_of_elements, Hl0 | exact Hbad0]. }
  exists l. eexists. split; [| split; [exact Hbad | split; [exact E |]]].
  { apply elem_of_elements. rewrite Hel. apply list_elem_of_In, in_elt. }
  cbn [device_log log_write http_log clock_reads].
  split; [| split; [| split; [| split; reflexivity]]].
  - rewrite content_app, content_colour_writes_other; [reflexivity |].
    intros x Hx H. apply append_inj in H. subst x.
    rewrite (Hdone l Hx) in Hbad. discriminate.
  - rewrite content_app, content_colour_writes_other; [reflexivity |].
    intros x _. apply brightness_is_no_zone.
  - intros path. rewrite content_app.
    destruct (content (rev (colour_writes (current_colour self) done)) path)
      as [c |] eqn:Hc; [right | left; reflexivity].
    apply content_In, In_colour_writes in Hc. destruct Hc as [-> _].
    reflexivity.
Qed.

Lemma update_leds_stops_at_unwritable_zone_witness :
  exists l w',
    _update_leds (monitor_on ["left"; "right"]) world_right_missing
    = (Raise (OSError (fn_prefix ++ l)), w')
    /\ content (device_log w') (fn_prefix ++ l) = None.
Proof.
  destruct (update_leds_stops_at_unwritable_zone
              (monitor_on ["left"; "right"]) world_right_missing)
    as (l & w' & _ & _ & E & Hc & _).
  - exists "right". split; [| reflexivity].
    apply elem_of_list_to_set, list_elem_of_In. simpl. auto.
  - exists l, w'. split; [exact E | exact Hc].
Defined.

(** ** Construction, step by step *)

Lemma add_locations_first_invalid (l : list string) (acc : gset string)
    (x : string) :
  first_invalid l = Some x ->
  add_locations l acc
  = Raise (AttributeError (x ++ " is not a valid location")).
Proof.
  revert acc. induction l as [| y l IH]; intros acc; [discriminate |].
  unfold first_invalid. cbn [find add_locations].
  destruct (bool_decide (y ∈ valid_locations)); cbn [negb].
  - apply IH.
  - intros H. injection H as <-. reflexivity.
Qed.

Lemma first_invalid_exists (l : list string) :
  (exists x, x ∈ l /\ x ∉ valid_locations) ->
  exists x, first_invalid l = Some x /\ x ∉ valid_locations.
Proof.
  intros (x & Hin & Hbad). unfold first_invalid.
  destruct (find _ l) as [y |] eqn:Hfind.
  - exists y. split; [reflexivity |].
    apply find_some in Hfind. destruct Hfind as [_ Hy].
    apply negb_true_iff, bool_decide_eq_false in Hy. exact Hy.
  - exfalso.
    apply list_elem_of_In in Hin.
    pose proof (find_none _ _ Hfind x Hin) as Hx. cbv beta in Hx.
    apply negb_false_iff, bool_decide_eq_true in Hx. contradiction.
Qed.

(** X5. An identifier outside the enumeration is refused before anything
    is written: [__init__] raises [AttributeError] naming the first such
    identifier in the order given, and the world is exactly as it was,
    also when valid zones come first in the list. *)
Theorem invalid_zone_is_refused_before_any_write
    (locs : locations_arg) (default : option string) (w : world) :
  has_invalid_zone locs ->
  exists x,
    first_invalid (normalise locs) = Some x
    /\ (x ∉ valid_locations)
    /\ Monitor_init locs default w
       = (Raise (AttributeError (x ++ " is not a valid location")), w).
Proof.
  intros H. destruct (first_invalid_exists _ H) as (x & Hx & Hbad).
  exists x. split; [exact Hx |]. split; [exact Hbad |].
  unfold Monitor_init. rewrite (add_locations_first_invalid _ _ _ Hx).
  reflexivity.
Qed.

Lemma invalid_zone_is_refused_before_any_write_witness :
  Monitor_init (LocList ["left"; "top"; "bottom"]) None world0
  = (Raise (AttributeError "top is not a valid location"), world0).
Proof.
  destruct (invalid_zone_is_refused_before_any_write
              (LocList ["left"; "top"; "bottom"]) None world0)
    as (x & Hx & _ & E).
  - exists "top". split.
    + apply list_elem_of_In. simpl. auto.
    + intros Hin. apply list_elem_of_In in Hin. simpl in Hin.
      repeat (destruct Hin as [Hin | Hin]; [discriminate |]). exact Hin.
  - vm_compute in Hx. injection Hx as <-. exact E.
Defined.

Lemma write_colours_ok_zones (colour : string) (ls : list string) (w : world) :
  (forall l, In l ls -> writable w (fn_prefix ++ l) = true) ->
  write_colours colour ls w
  = (Ok tt, log_write (rev (colour_writes colour ls)) w).
Proof.
  revert w. induction ls as [| l ls IH]; intros w Hw.
  - cbn [write_colours colour_writes map rev]. rewrite log_write_nil.
    reflexivity.
  - cbn [write_colours]. unfold bind.
    rewrite open_write_ok by (apply Hw; left; reflexivity).
    rewrite IH by (intros x Hx; apply Hw; right; exact Hx).
    rewrite log_write_app. reflexivity.
Qed.

Lemma Monitor_init_valid (locs : locations_arg) (default : option string)
    (w : world) :
  Forall (fun x => x ∈ valid_locations) (normalise locs) ->
  let self :=
    {| locations := list_to_set (normalise locs);
       current_colour :=
         match default with
         | None => rgb_to_str [of_int 0; of_int 0; of_int 255]
         | Some d => d
         end |} in
  Monitor_init locs default w
  = match _update_leds self w with
    | (Ok _, w1) =>
        match open_write brightness_path "100" w1 with
        | (Ok _, w2) => (Ok self, w2)
        | (Raise e, w2) => (Raise e, w2)
        end
    | (Raise e, w1) => (Raise e, w1)
    end.
Proof.
  intros Hall self. unfold Monitor_init.
  rewrite add_locations_valid by exact Hall.
  rewrite (left_id_L ∅ (∪)). fold self. unfold bind, _update_brighness.
  destruct (_update_leds self w) as [[[] | e] w1]; [| reflexivity].
  change (str (max_int 100 (min_int 0 (py_int (of_int 100))))) with "100".
  destruct (open_write brightness_path "100" w1) as [[[] | e] w2];
    reflexivity.
Qed.

(** X6. With valid identifiers and a writable device, construction
    succeeds: the zone set is the set of the identifiers given (repeated
    ones count once), the colour is written once per zone and then "100"
    to the brightness file, so each zone file holds the colour and the
    brightness file holds "100"; no request is sent and the clock is not
    read. *)
Theorem construction_writes_colour_then_brightness
    (locs : locations_arg) (default : option string) (w : world) :
  Forall (fun x => x ∈ valid_locations) (normalise locs) ->
  all_writable w ->
  exists m w',
    Monitor_init locs default w = (Ok m, w')
    /\ locations m = list_to_set (normalise locs)
    /\ device_log w'
       = ((brightness_path, "100")
            :: rev (colour_writes (current_colour m)
                      (elements (locations m)))
            ++ device_log w)%list
    /\ (forall l, In l (normalise locs) ->
          content (device_log w') (fn_prefix ++ l) = Some (current_colour m))
    /\ content (device_log w') brightness_path = Some "100"
    /\ http_log w' = http_log w /\ clock_reads w' = clock_reads w.
Proof.
  intros Hall Hw. rewrite (Monitor_init_valid locs default w Hall). cbv zeta.
  rewrite update_leds_ok by exact Hw.
  rewrite open_write_ok by (apply all_writable_log_write, Hw).
  eexists. eexists. split; [reflexivity |].
  cbn [locations current_colour device_log log_write http_log clock_reads app].
  split; [reflexivity |]. split; [reflexivity |].
  split; [| split; [| split; reflexivity]].
  - intros l Hl. cbn [content].
    destruct (String.eqb brightness_path (fn_prefix ++ l)) eqn:Hb.
    + apply String.eqb_eq in Hb. destruct (brightness_is_no_zone l Hb).
    + rewrite content_app, content_colour_writes_zone; [reflexivity |].
      apply list_elem_of_In, elem_of_elements, elem_of_list_to_set,
        list_elem_of_In, Hl.
  - cbn [content]. rewrite String.eqb_refl. reflexivity.
Qed.

Lemma construction_writes_colour_then_brightness_witness :
  exists m w',
    Monitor_init (LocList ["left"; "right"; "left"]) None world0 = (Ok m, w')
    /\ length (device_log w') = 3%nat
    /\ content (device_log w') (fn_prefix ++ "left") = Some "0000ff".
Proof.
  destruct (construction_writes_colour_then_brightness
              (LocList ["left"; "right"; "left"]) None world0)
    as (m & w' & E & Hm & Hlog & Hc & _).
  - repeat constructor; apply list_elem_of_In; simpl; auto.
  - exact world0_writable.
  - exists m, w'. split; [exact E |]. split.
    + rewrite Hlog, Hm. vm_compute. reflexivity.
    + rewrite (Hc "left" ltac:(simpl; auto)).
      rewrite (Monitor_init_colour _ _ _ _ _ E). reflexivity.
Defined.

(** X7. When the zone files are writable but the brightness file is not,
    construction raises the [OSError] of the brightness file after the
    colour was written to every zone: the zone files already hold it. *)
Theorem construction_can_fail_after_writing_zones
    (locs : locations_arg) (default : option string) (w : world) :
  Forall (fun x => x ∈ valid_locations) (normalise locs) ->
  (forall l, writable w (fn_prefix ++ l) = true) ->
  writable w brightness_path = false ->
  exists w',
    Monitor_init locs default w = (Raise (OSError brightness_path), w')
    /\ (forall l, In l (normalise locs) ->
          content (device_log w') (fn_prefix ++ l)
          = Some match default with
                 | None => "0000ff"
                 | Some d => d
                 end)
    /\ content (device_log w') brightness_path
       = content (device_log w) brightness_path.
Proof.
  intros Hall Hzones Hb. rewrite (Monitor_init_valid locs default w Hall).
  cbv zeta. unfold _update_leds. cbn [current_colour locations].
  rewrite write_colours_ok_zones by (intros l _; apply Hzones).
  unfold open_write. cbn [writable log_write]. rewrite Hb.
  eexists. split; [reflexivity |]. cbn [device_log log_write]. split.
  - intros l Hl. rewrite content_app, content_colour_writes_zone.
    + destruct default; reflexivity.
    + apply list_elem_of_In, elem_of_elements, elem_of_list_to_set,
        list_elem_of_In, Hl.
  - rewrite content_app, content_colour_writes_other; [reflexivity |].
    intros l _. apply brightness_is_no_zone.
Qed.

Lemma construction_can_fail_after_writing_zones_witness :
  exists w',
    Monitor_init (LocStr "center") None world_brightness_missing
    = (Raise (OSError brightness_path), w')
    /\ content (device_log w') (fn_prefix ++ "center") = Some "0000ff".
Proof.
  destruct (construction_can_fail_after_writing_zones
              (LocStr "center") None world_brightness_missing)
    as (w' & E & Hc & _).
  - repeat constructor; apply list_elem_of_In; simpl; auto.
  - intros l. cbn [writable world_brightness_missing].
    apply negb_true_iff, String.eqb_neq. intros H. symmetry in H.
    exact (brightness_is_no_zone l H).
  - reflexivity.
  - exists w'. split; [exact E |]. apply Hc. simpl. auto.
Defined.

(** ** More on the health monitor *)

Section HealthMore.
Context {R : Rounding}.

(** X8. When an update that is not rate-limited cannot write one of its
    zone files, it raises that [OSError] after the request was sent and
    the colour changed, but before [last_update] is set: the failed
    update does not count for rate limiting. *)
Theorem health_device_failure_keeps_last_update
    (s : site_health) (w : world) :
  rate_limited s (now w) = false ->
  (exists l, l ∈ locations (sh_monitor s)
             /\ writable w (fn_prefix ++ l) = false) ->
  exists l s' w',
    site_health_update s w = (Raise (OSError (fn_prefix ++ l)), s', w')
    /\ l ∈ locations (sh_monitor s)
    /\ last_update s' = last_update s
    /\ (forall t, rate_limited s' t = rate_limited s t)
    /\ http_log w' = request_of s :: http_log w
    /\ current_colour (sh_monitor s')
       = outcome_colour (endpoint w (length (http_log w)))
           (fsub (clock w (2 + clock_reads w)) (clock w (1 + clock_reads w))).
Proof.
  intros Hlim (l0 & Hl0 & Hbad0).
  destruct (unlimited_update_cases s w Hlim) as (k & _ & Hk).
  cbv zeta in Hk. rewrite Hk. clear Hk. unfold _update_leds.
  cbn [sh_monitor sh_set_colour set_colour locations current_colour].
  match goal with
  | |- context [write_colours ?c ?ls ?w0] =>
      destruct (write_colours_fails c ls w0)
        as (done & l & rest & Hel & Hbad & _ & ->)
  end.
  { exists l0. split; [apply list_elem_of_In, elem_of_elements, Hl0 |].
    exact Hbad0. }
  exists l. eexists. eexists. split; [reflexivity |].
  split; [| repeat split].
  apply elem_of_elements. rewrite Hel. apply list_elem_of_In, in_elt.
Qed.

(** X9. A poll that is due is not skipped: when the frequency is an
    integer number of seconds and at least that much time has passed
    since [last_update], the update is not rate-limited, however the
    subtraction is rounded.  In particular a monitor that never updated
    ([last_update] 0) polls as soon as the clock is at least the
    frequency. *)
Theorem due_poll_is_not_skipped (s : site_health) (t : number) (f : Z) :
  frequency s = of_int f ->
  Z.abs f <= 2 ^ 53 ->
  ((of_int f <= t - last_update s)%Qc -> rate_limited s t = false)
  /\ (last_update s = of_int 0 -> (of_int f <= t)%Qc ->
      rate_limited s t = false).
Proof.
  intros Hf Hsmall.
  assert (H : (of_int f <= t - last_update s)%Qc -> rate_limited s t = false).
  { intros Hdue. unfold rate_limited, fsub. rewrite Hf.
    destruct (ltb _ _) eqn:Hlt; [| reflexivity].
    apply ltb_lt in Hlt. exfalso. revert Hlt. apply Qcle_not_lt.
    rewrite <- (rnd_int f Hsmall). apply rnd_mono, Hdue. }
  split; [exact H |].
  intros H0 Hdue. apply H. rewrite H0.
  unfold Qcminus. replace (- of_int 0)%Qc with (of_int 0)
    by (apply Qc_is_canon; reflexivity).
  rewrite plus_zero_r. exact Hdue.
Qed.

Lemma site_health_update_requests (s : site_health) (w : world) :
  http_log (snd (site_health_update s w))
  = if rate_limited s (now w) then http_log w
    else request_of s :: http_log w.
Proof.
  destruct (rate_limited s (now w)) eqn:Hlim.
  - rewrite (limited_update s w Hlim). reflexivity.
  - destruct (unlimited_update_cases s w Hlim) as (k & _ & Hk).
    cbv zeta in Hk. rewrite Hk. clear Hk.
    destruct (_update_leds _ _) as [[[] | e] w3] eqn:Hleds;
      apply update_leds_frame in Hleds;
      destruct Hleds as (_ & _ & _ & Hlog & _); cbn [snd];
      [change (http_log (advance 1 w3)) with (http_log w3) |];
      rewrite Hlog; reflexivity.
Qed.

(** X10. An update sends at most one request: none when it is
    rate-limited, and otherwise exactly one, for the monitor's url with
    its headers and timeout, whether or not the device write that follows
    succeeds. *)
Theorem update_sends_at_most_one_request (s : site_health) (w : world) :
  http_log (snd (site_health_update s w))
  = if rate_limited s (now w) then http_log w
    else request_of s :: http_log w.
Proof. apply site_health_update_requests. Qed.

End HealthMore.

Lemma health_device_failure_keeps_last_update_witness :
  exists l s' w',
    site_health_update (R := exact_arithmetic)
      {| sh_monitor := monitor_on ["left"; "right"];
         url := "http://localhost/health"; headers := [];
         timeout := of_int 5; frequency := of_int 10;
         last_update := of_int 0 |} world_right_missing
    = (Raise (OSError (fn_prefix ++ l)), s', w')
    /\ last_update s' = of_int 0
    /\ length (http_log w') = 1%nat.
Proof.
  destruct (health_device_failure_keeps_last_update (R := exact_arithmetic)
              {| sh_monitor := monitor_on ["left"; "right"];
                 url := "http://localhost/health"; headers := [];
                 timeout := of_int 5; frequency := of_int 10;
                 last_update := of_int 0 |} world_right_missing)
    as (l & s' & w' & E & _ & Hlast & _ & Hlog & _).
  - vm_compute. reflexivity.
  - exists "right". split; [| reflexivity].
    apply elem_of_list_to_set, list_elem_of_In. simpl. auto.
  - exists l, s', w'. split; [exact E |]. split; [exact Hlast |].
    rewrite Hlog. reflexivity.
Defined.

Lemma due_poll_is_not_skipped_witness :
  rate_limited (R := exact_arithmetic) (health_at 0) (of_int 1000) = false.
Proof.
  apply (proj2 (due_poll_is_not_skipped (R := exact_arithmetic)
                  (health_at 0) (of_int 1000) 10 eq_refl
                  ltac:(vm_compute; discriminate)));
    [reflexivity | apply of_int_le; lia].
Defined.

(** ** More on the pulse monitor *)

Section PulseMore.
Context {R : Rounding}.

Lemma comprehension_raises {A : Type} (f : nat -> result A) (xs : list nat)
    (e : exn) :
  comprehension f xs = Raise e -> exists x, f x = Raise e.
Proof.
  induction xs as [| x xs IH]; cbn [comprehension]; [discriminate |].
  destruct (f x) as [v | e0] eqn:Hx.
  - destruct (comprehension f xs) as [vs | e1]; [discriminate |].
    intros H. injection H as ->. apply IH. reflexivity.
  - intros H. injection H as ->. eauto.
Qed.

Lemma channel_raises_in_range (a b : list Z) (p : Z) (x : nat) (e : exn) :
  products_bounded a b p -> channel a b p x = Raise e -> e = IndexError.
Proof.
  intros [Ha Hb]. unfold channel.
  destruct (a !! x) as [ax |] eqn:Hax; [| intros H; injection H as <-; auto].
  rewrite Forall_forall in Ha, Hb.
  destruct (int_truediv_in_range _
              (Ha ax (list_elem_of_lookup_2 _ _ _ Hax))) as [-> H1].
  destruct (b !! x) as [bx |] eqn:Hbx; [| intros H; injection H as <-; auto].
  destruct (int_truediv_in_range _
              (Hb bx (list_elem_of_lookup_2 _ _ _ Hbx))) as [-> H2].
  discriminate.
Qed.

Lemma comprehension_short (a b : list Z) (p : Z) :
  (length a < 3 \/ length b < 3)%nat ->
  exists e, comprehension (channel a b p) [0; 1; 2]%nat = Raise e.
Proof.
  intros Hshort.
  destruct (comprehension (channel a b p) [0; 1; 2]%nat) as [colour | e]
    eqn:Hc; [| eauto].
  exfalso. cbn [comprehension] in Hc.
  destruct (channel a b p 0) as [v0 |]; [| discriminate].
  destruct (channel a b p 1) as [v1 |]; [| discriminate].
  destruct (channel a b p 2) as [v2 |] eqn:H2; [| discriminate].
  apply channel_ok_lookup in H2. destruct H2 as [Ha Hb].
  apply lookup_lt_is_Some in Ha, Hb. lia.
Qed.

Lemma pulse_update_position (p : pulse) (w : world) :
  speed (snd (fst (pulse_update p w))) = speed p
  /\ (position (snd (fst (pulse_update p w))) = position p
      \/ position (snd (fst (pulse_update p w)))
         = if 100 <? position p + speed p then 0
           else position p + speed p).
Proof.
  unfold pulse_update.
  destruct (comprehension _ _) as [colour | e]; [| auto].
  destruct (rgb_to_str_floats _) as [c | e]; [| auto].
  destruct (_update_leds _ w) as [[[] | e] w1]; [| auto].
  cbn [fst snd p_set_colour p_set_position position speed].
  destruct (100 <? position p + speed p); auto.
Qed.

Lemma pulse_short_index_error (p : pulse) (w : world) :
  (length (a_colour p) < 3 \/ length (b_colour p) < 3)%nat ->
  products_bounded (a_colour p) (b_colour p) (position p) ->
  pulse_update p w = (Raise IndexError, p, w).
Proof.
  intros Hshort Hb.
  destruct (comprehension_short _ _ (position p) Hshort) as [e Hc].
  pose proof (comprehension_raises _ _ _ Hc) as [x Hx].
  unfold pulse_update. rewrite Hc.
  rewrite (channel_raises_in_range _ _ _ _ _ Hb Hx). reflexivity.
Qed.

(** X11. A pulse monitor one of whose colours has fewer than three
    channels raises at every update, before anything is written and with
    the monitor unchanged: [IndexError] when the products of line 133
    stay within the range of floats, and otherwise [IndexError] or the
    [OverflowError] of an earlier channel. *)
Theorem pulse_short_colour_raises_before_writing (p : pulse) (w : world) :
  (length (a_colour p) < 3 \/ length (b_colour p) < 3)%nat ->
  (exists e,
      pulse_update p w = (Raise e, p, w)
      /\ (e = IndexError \/ e = OverflowError))
  /\ (products_bounded (a_colour p) (b_colour p) (position p) ->
      pulse_update p w = (Raise IndexError, p, w)).
Proof.
  intros Hshort.
  destruct (comprehension_short _ _ (position p) Hshort) as [e Hc].
  pose proof (comprehension_raises _ _ _ Hc) as [x Hx].
  split.
  - exists e. unfold pulse_update. rewrite Hc.
    split; [reflexivity | exact (channel_raises _ _ _ _ _ Hx)].
  - intros Hb. exact (pulse_short_index_error p w Hshort Hb).
Qed.

(** X12. With a speed that is not negative, the position of a pulse
    monitor that starts within 0..100 is within 0..100 after any number
    of updates, whether they return or raise. *)
Theorem pulse_position_stays_in_range (n : nat) (p : pulse) (w : world) :
  0 <= speed p ->
  0 <= position p <= 100 ->
  0 <= position (snd (fst (pulse_updates n p w))) <= 100.
Proof.
  revert p w. induction n as [| n IH]; intros p w Hsp Hpos; [exact Hpos |].
  cbn [pulse_updates].
  destruct (pulse_update_position p w) as [Hs Hp].
  assert (Hpos' : 0 <= position (snd (fst (pulse_update p w))) <= 100).
  { destruct Hp as [-> | ->]; [exact Hpos |].
    destruct (100 <? position p + speed p) eqn:Hwrap; [lia |].
    apply Z.ltb_ge in Hwrap. lia. }
  destruct (pulse_update p w) as [[[[] | e] p'] w'];
    cbn [fst snd] in *; [| exact Hpos'].
  apply IH; [rewrite Hs; exact Hsp | exact Hpos'].
Qed.

Lemma pulse_climbs_by (n : nat) (m : Monitor) (a b : rgb) (p sp : Z)
    (w : world) :
  all_writable w ->
  (forall k : nat, (k < n)%nat ->
     products_bounded (channels a) (channels b) (p + sp * Z.of_nat k)) ->
  p <= 100 ->
  p + sp * Z.of_nat n <= 100 ->
  exists m' w',
    all_writable w'
    /\ pulse_updates n (pulse_of m a b p sp) w
       = (Ok tt, pulse_of m' a b (p + sp * Z.of_nat n) sp, w').
Proof.
  revert m p w. induction n as [| n IH]; intros m p w Hw Hb Hp Hend.
  - exists m, w. split; [exact Hw |]. cbn [pulse_updates].
    replace (p + sp * Z.of_nat 0) with p by lia. reflexivity.
  - destruct (pulse_updates_S n m a b p sp w Hw) as (m1 & w1 & Hw1 & ->).
    { replace p with (p + sp * Z.of_nat 0) by lia. apply Hb. lia. }
    assert (Hstep : p + sp <= 100) by nia.
    replace (100 <? p + sp) with false by (symmetry; apply Z.ltb_ge; lia).
    destruct (IH m1 (p + sp) w1 Hw1) as (m2 & w2 & Hw2 & ->).
    + intros k Hk.
      replace (p + sp + sp * Z.of_nat k) with (p + sp * Z.of_nat (S k))
        by lia.
      apply Hb. lia.
    + exact Hstep.
    + lia.
    + exists m2, w2. split; [exact Hw2 |].
      replace (p + sp + sp * Z.of_nat n) with (p + sp * Z.of_nat (S n))
        by lia.
      reflexivity.
Qed.

(** X13. With a positive speed [sp], a writable device and channels of
    magnitude up to 2^52, the position of a pulse monitor that starts at
    0 is [sp * k] after [k] updates for every [k] up to [100 / sp], and
    the update after that resets it to 0: the pulse repeats every
    [100 / sp + 1] updates. *)
Theorem pulse_period (m : Monitor) (a b : rgb) (sp : Z) (w : world) :
  all_writable w ->
  channels_bounded (channels a) -> channels_bounded (channels b) ->
  0 < sp ->
  (forall k : nat,
      Z.of_nat k <= 100 / sp ->
      exists self' w',
        pulse_updates k (pulse_of m a b 0 sp) w = (Ok tt, self', w')
        /\ position self' = sp * Z.of_nat k)
  /\ (exists self' w',
         pulse_updates (S (Z.to_nat (100 / sp))) (pulse_of m a b 0 sp) w
         = (Ok tt, self', w')
         /\ position self' = 0).
Proof.
  intros Hw Ha Hb Hsp.
  assert (Hq : 0 <= 100 / sp) by (apply Z.div_pos; lia).
  assert (Hmul : sp * (100 / sp) <= 100) by (apply Z.mul_div_le; lia).
  assert (Hnext : 100 < sp * (100 / sp) + sp).
  { pose proof (Z.mod_pos_bound 100 sp Hsp) as Hmod.
    pose proof (Z.div_mod 100 sp ltac:(lia)) as Hdm. lia. }
  assert (Hr : forall k : nat, Z.of_nat k <= 100 / sp ->
               products_bounded (channels a) (channels b)
                 (0 + sp * Z.of_nat k)).
  { intros k Hk. apply products_bounded_of_channels; [exact Ha | exact Hb |].
    nia. }
  split.
  - intros k Hk.
    destruct (pulse_climbs_by k m a b 0 sp w Hw) as (m' & w' & _ & ->).
    + intros j Hj. apply Hr. lia.
    + lia.
    + nia.
    + eexists. eexists. split; [reflexivity |]. cbn [position pulse_of]. lia.
  - replace (S (Z.to_nat (100 / sp))) with (Z.to_nat (100 / sp) + 1)%nat
      by lia.
    rewrite pulse_updates_add.
    destruct (pulse_climbs_by (Z.to_nat (100 / sp)) m a b 0 sp w Hw)
      as (m' & w' & Hw' & ->).
    + intros j Hj. apply Hr. lia.
    + lia.
    + rewrite Z2Nat.id by lia. lia.
    + pose proof (Hr (Z.to_nat (100 / sp)) ltac:(lia)) as Hlast.
      rewrite Z2Nat.id in * by lia.
      destruct (pulse_updates_S 0 m' a b (0 + sp * (100 / sp)) sp w' Hw' Hlast)
        as (m2 & w2 & _ & ->).
      replace (100 <? 0 + sp * (100 / sp) + sp) with true
        by (symmetry; apply Z.ltb_lt; lia).
      eexists. eexists. split; reflexivity.
Qed.


End PulseMore.

Lemma pulse_short_colour_raises_before_writing_witness :
  pulse_update (R := exact_arithmetic) pulse_short world0
  = (Raise IndexError, pulse_short, world0).
Proof.
  apply (proj2 (pulse_short_colour_raises_before_writing
                  (R := exact_arithmetic) pulse_short world0
                  ltac:(left; simpl; lia))).
  split; repeat constructor; rewrite pow_52; simpl; lia.
Defined.

Lemma pulse_position_stays_in_range_witness :
  0 <= position
         (snd (fst (pulse_updates (R := exact_arithmetic) 50 pulse0 world0)))
    <= 100.
Proof.
  apply (pulse_position_stays_in_range (R := exact_arithmetic));
    simpl; lia.
Defined.

Lemma pulse_period_witness :
  exists self' w',
    pulse_updates (R := exact_arithmetic) 15
      (pulse_of (monitor_on ["left"]) (0, 0, 255) (255, 0, 0) 0 7) world0
    = (Ok tt, self', w')
    /\ position self' = 0.
Proof.
  exact (proj2 (pulse_period (R := exact_arithmetic) (monitor_on ["left"])
                  (0, 0, 255) (255, 0, 0) 7 world0 world0_writable
                  (proj1 blue_and_red_bounded) (proj2 blue_and_red_bounded)
                  ltac:(lia))).
Defined.


(** ** More on the load monitor *)

Lemma py_int_mono (x y : number) : (x <= y)%Qc -> py_int x <= py_int y.
Proof.
  unfold Qcle, Qle, py_int.
  set (n1 := Qnum (this x)). set (d1 := Zpos (Qden (this x))).
  set (n2 := Qnum (this y)). set (d2 := Zpos (Qden (this y))).
  assert (Hd1 : 0 < d1) by (subst d1; lia).
  assert (Hd2 : 0 < d2) by (subst d2; lia).
  intros Hle.
  destruct (Z_lt_dec n1 0) as [Hn1 | Hn1].
  - replace n1 with (- (- n1)) by lia. rewrite Z.quot_opp_l by lia.
    rewrite (Z.quot_div_nonneg (- n1)) by lia.
    destruct (Z_lt_dec n2 0) as [Hn2 | Hn2].
    + replace n2 with (- (- n2)) by lia. rewrite Z.quot_opp_l by lia.
      rewrite (Z.quot_div_nonneg (- n2)) by lia.
      assert ((- n2) / d2 <= (- n1) / d1); [| lia].
      apply Z.div_le_lower_bound; [lia |].
      pose proof (Z.mul_div_le (- n2) d2 ltac:(lia)). nia.
    + assert (0 <= (- n1) / d1) by (apply Z.div_pos; lia).
      assert (0 <= n2 ÷ d2) by (apply Z.quot_pos; lia). lia.
  - assert (0 <= n2) by nia.
    rewrite !Z.quot_div_nonneg by lia.
    apply Z.div_le_lower_bound; [lia |].
    pose proof (Z.mul_div_le n1 d1 ltac:(lia)). nia.
Qed.

Lemma Qc_zero_le_inv_8 : (0 <= / of_int 8)%Qc.
Proof. unfold Qcle. vm_compute. discriminate. Qed.

Lemma Qc_zero_le_255 : (0 <= of_int 255)%Qc.
Proof. unfold Qcle. vm_compute. discriminate. Qed.

Section LoadMore.
Context {R : Rounding}.

Lemma py_min_mono (a1 a2 c : number) :
  (a1 <= a2)%Qc -> (py_min a1 c <= py_min a2 c)%Qc.
Proof.
  intros H. unfold py_min.
  destruct (ltb c a1) eqn:H1, (ltb c a2) eqn:H2.
  - apply Qcle_refl.
  - apply ltb_lt in H1.
    assert (Hc : (c < a2)%Qc) by (eapply Qclt_le_trans; eassumption).
    apply ltb_lt in Hc. congruence.
  - apply Qcnot_lt_le. intros Hlt. apply ltb_lt in Hlt. congruence.
  - exact H.
Qed.

Lemma py_min_le (a c : number) : (py_min a c <= c)%Qc.
Proof.
  unfold py_min. destruct (ltb c a) eqn:H; [apply Qcle_refl |].
  apply Qcnot_lt_le. intros Hlt. apply ltb_lt in Hlt. congruence.
Qed.

Lemma load_fraction_mono (l1 l2 : number) :
  (l1 <= l2)%Qc -> (load_fraction l1 <= load_fraction l2)%Qc.
Proof.
  intros H. unfold load_fraction, fdiv, fmul.
  apply py_min_mono, rnd_mono. unfold Qcdiv.
  apply Qcmult_le_compat_r; [| exact Qc_zero_le_inv_8].
  apply rnd_mono. rewrite !(Qcmult_comm (of_int 255)).
  apply Qcmult_le_compat_r; [exact H | exact Qc_zero_le_255].
Qed.

Lemma load_fraction_zero : load_fraction (of_int 0) = of_int 0.
Proof. unfold load_fraction. apply load_fraction_idle. Qed.

Lemma green_antitone (f1 f2 : number) :
  (f1 <= f2)%Qc ->
  (fsub (of_int 255) f2 <= fsub (of_int 255) f1)%Qc.
Proof.
  intros H. unfold fsub. apply rnd_mono. unfold Qcminus.
  apply Qcplus_le_compat; [apply Qcle_refl | apply Qcopp_le_compat, H].
Qed.

Lemma fsub_255_0 : fsub (of_int 255) (of_int 0) = of_int 255.
Proof.
  unfold fsub. unfold of_int at 1 2. rewrite <- Z2Qc_inj_sub.
  fold (of_int (255 - 0)). apply rnd_int. vm_compute. discriminate.
Qed.

Lemma fsub_255_255 : fsub (of_int 255) (of_int 255) = of_int 0.
Proof.
  unfold fsub. unfold of_int at 1 2. rewrite <- Z2Qc_inj_sub.
  fold (of_int (255 - 255)). apply rnd_int. vm_compute. discriminate.
Qed.

(** X15. The colour of the load monitor follows the load: when the load
    grows, the red channel (the integer [rgb_to_str] encodes) does not
    decrease and the green channel does not increase; and for a load that
    is not negative both are within 0..255, so that neither is clamped.
    This holds however the float operations round. *)
Theorem load_colour_is_monotone :
  (forall l1 l2 : number,
      (l1 <= l2)%Qc ->
      py_int (load_fraction l1) <= py_int (load_fraction l2)
      /\ py_int (fsub (of_int 255) (load_fraction l2))
         <= py_int (fsub (of_int 255) (load_fraction l1)))
  /\ (forall l : number,
         (of_int 0 <= l)%Qc ->
         0 <= py_int (load_fraction l) <= 255
         /\ 0 <= py_int (fsub (of_int 255) (load_fraction l)) <= 255).
Proof.
  split.
  - intros l1 l2 H. split; apply py_int_mono.
    + apply load_fraction_mono, H.
    + apply green_antitone, load_fraction_mono, H.
  - intros l Hl.
    assert (H0 : (of_int 0 <= load_fraction l)%Qc).
    { rewrite <- load_fraction_zero. apply load_fraction_mono, Hl. }
    assert (H255 : (load_fraction l <= of_int 255)%Qc) by apply py_min_le.
    pose proof (py_int_mono _ _ H0) as Hr0.
    pose proof (py_int_mono _ _ H255) as Hr255.
    pose proof (py_int_mono _ _ (green_antitone _ _ H255)) as Hg0.
    pose proof (py_int_mono _ _ (green_antitone _ _ H0)) as Hg255.
    rewrite py_int_of_int in Hr0, Hr255.
    rewrite fsub_255_255, py_int_of_int in Hg0.
    rewrite fsub_255_0, py_int_of_int in Hg255.
    lia.
Qed.

End LoadMore.

Lemma load_colour_is_monotone_witness :
  py_int (load_fraction (R := exact_arithmetic) (of_int 2))
  <= py_int (load_fraction (R := exact_arithmetic) (of_int 6))
  /\ py_int (fsub (R := exact_arithmetic) (of_int 255)
               (load_fraction (R := exact_arithmetic) (of_int 6)))
     <= py_int (fsub (R := exact_arithmetic) (of_int 255)
                  (load_fraction (R := exact_arithmetic) (of_int 2))).
Proof.
  apply (proj1 (load_colour_is_monotone (R := exact_arithmetic))).
  apply of_int_le. lia.
Defined.

(** ** The scheduler's loop *)

Lemma settings_determine (m m' : monitor) :
  settings_of m = settings_of m' ->
  zones_of m = zones_of m'
  /\ is_health m = is_health m'
  /\ is_load m = is_load m'
  /\ writes_every_tick m = writes_every_tick m'.
Proof.
  destruct m as [m | s | l | p], m' as [m' | s' | l' | p'];
    cbn [settings_of]; intros H; try discriminate;
    injection H; intros; subst; cbn; auto.
Qed.

Section Scheduler.
Context {R : Rounding}.

Lemma site_health_update_settings (s : site_health) (w : world) :
  settings_of (Health (snd (fst (site_health_update s w))))
  = settings_of (Health s).
Proof.
  destruct (rate_limited s (now w)) eqn:Hlim.
  - rewrite (limited_update s w Hlim). reflexivity.
  - destruct (unlimited_update_cases s w Hlim) as (k & _ & Hk).
    cbv zeta in Hk. rewrite Hk.
    destruct (_update_leds _ _) as [[[] | e] w3]; reflexivity.
Qed.

Lemma pulse_update_settings (p : pulse) (w : world) :
  settings_of (Pulse (snd (fst (pulse_update p w)))) = settings_of (Pulse p).
Proof.
  unfold pulse_update.
  destruct (comprehension _ _) as [colour | e]; [| reflexivity].
  destruct (rgb_to_str_floats _) as [c | e]; [| reflexivity].
  destruct (_update_leds _ w) as [[[] | e] w1]; [| reflexivity].
  cbn [fst snd]. destruct (100 <? _); reflexivity.
Qed.

Lemma update_settings (m : monitor) (w : world) :
  settings_of (snd (fst (update m w))) = settings_of m.
Proof.
  destruct m as [m | s | l | p]; unfold update.
  - reflexivity.
  - pose proof (site_health_update_settings s w) as H.
    destruct (site_health_update s w) as [[r s'] w']. exact H.
  - unfold load_average_update. cbv zeta.
    destruct (_update_leds _ w). reflexivity.
  - pose proof (pulse_update_settings p w) as H.
    destruct (pulse_update p w) as [[r p'] w']. exact H.
Qed.

Lemma update_offline (m : monitor) (w : world) :
  is_health m = false ->
  http_log (snd (update m w)) = http_log w
  /\ clock_reads (snd (update m w)) = clock_reads w.
Proof.
  destruct m as [m | s | l | p]; intros Hm; try discriminate; unfold update.
  - auto.
  - unfold load_average_update. cbv zeta.
    destruct (_update_leds _ w) as [r w1] eqn:Hleds.
    apply update_leds_frame in Hleds. cbn [snd]. tauto.
  - unfold pulse_update.
    destruct (comprehension _ _) as [colour | e]; [| auto].
    destruct (rgb_to_str_floats _) as [c | e]; [| auto].
    destruct (_update_leds _ w) as [[[] | e] w1] eqn:Hleds;
      apply update_leds_frame in Hleds; cbn [snd]; tauto.
Qed.

(** What one update of a steady pulse monitor does. *)
Lemma pulse_update_steady (p : pulse) (w : world) :
  steady (Pulse p) ->
  all_writable w ->
  exists p',
    pulse_update p w
    = (Ok tt, p',
       log_write (rev (colour_writes (current_colour (p_monitor p'))
                         (elements (locations (p_monitor p))))) w)
    /\ steady (Pulse p').
Proof.
  intros (H3 & Ha & Hb & Hpos & Hsp) Hw. destruct p as [m a b pos sp].
  unfold three_channels in H3. cbn [a_colour b_colour position speed] in *.
  destruct a as [| a0 [| a1 [| a2 ra]]]; try discriminate.
  destruct b as [| b0 [| b1 [| b2 rb]]]; try discriminate.
  rewrite (pulse_update_in_range m a0 a1 a2 b0 b1 b2 ra rb pos sp w Hw
             (products_bounded_of_channels _ _ pos Ha Hb Hpos)).
  cbv zeta.
  match goal with
  | |- exists p', (_, ?q, _) = _ /\ _ => exists q
  end.
  split; [reflexivity |].
  cbn [steady three_channels a_colour b_colour position speed].
  split; [reflexivity |]. split; [exact Ha |]. split; [exact Hb |].
  split; [| exact Hsp].
  destruct (100 <? pos + sp) eqn:Hwrap; [lia |].
  apply Z.ltb_ge in Hwrap. lia.
Qed.

Lemma update_ok (m : monitor) (w : world) :
  all_writable w ->
  steady m ->
  exists m' w',
    update m w = (Ok tt, m', w')
    /\ all_writable w'
    /\ steady m'
    /\ (writes_every_tick m = true ->
        length (device_log w')
        = (size (zones_of m) + length (device_log w))%nat
        /\ forall l, l ∈ zones_of m ->
             content (device_log w') (fn_prefix ++ l)
             = Some (colour_of m')).
Proof.
  intros Hw Hm. destruct m as [m | s | l | p]; unfold update.
  - exists (Base m), w. split; [reflexivity |]. split; [exact Hw |].
    split; [exact I | discriminate].
  - destruct (rate_limited s (now w)) eqn:Hlim.
    + rewrite (limited_update s w Hlim).
      eexists. eexists. split; [reflexivity |].
      split; [intros path; apply Hw |]. split; [exact I | discriminate].
    + destruct (unlimited_update_cases s w Hlim) as (k & _ & Hk).
      cbv zeta in Hk. rewrite Hk.
      rewrite update_leds_ok by (intros path; apply Hw).
      eexists. eexists. split; [reflexivity |].
      split; [intros path; apply Hw |]. split; [exact I | discriminate].
  - unfold load_average_update. cbv zeta.
    rewrite update_leds_ok by exact Hw.
    eexists. eexists. split; [reflexivity |].
    split; [intros path; apply Hw |]. split; [exact I |]. intros _.
    cbn [device_log log_write colour_of la_monitor zones_of]. split.
    + rewrite length_app, length_colour_writes. reflexivity.
    + intros z Hz.
      rewrite content_app, content_colour_writes_zone; [reflexivity |].
      apply list_elem_of_In, elem_of_elements, Hz.
  - destruct (pulse_update_steady p w Hm Hw) as (p' & -> & Hp').
    eexists. eexists. split; [reflexivity |].
    split; [intros path; apply Hw |]. split; [exact Hp' |]. intros _.
    cbn [device_log log_write colour_of zones_of]. split.
    + rewrite length_app, length_colour_writes. reflexivity.
    + intros z Hz.
      rewrite content_app, content_colour_writes_zone; [reflexivity |].
      apply list_elem_of_In, elem_of_elements, Hz.
Qed.

Lemma update_all_settings (ms : list monitor) (w : world) :
  map settings_of (snd (fst (update_all ms w))) = map settings_of ms.
Proof.
  revert w. induction ms as [| m ms IH]; intros w; [reflexivity |].
  cbn [update_all]. pose proof (update_settings m w) as Hm.
  destruct (update m w) as [[[[] | e] m'] w']; cbn [fst snd] in Hm.
  - specialize (IH w'). destruct (update_all ms w') as [[r ms'] w''].
    cbn [fst snd map] in *. rewrite Hm, IH. reflexivity.
  - cbn [fst snd map]. rewrite Hm. reflexivity.
Qed.

Lemma main_loop_settings (n : nat) (ms : list monitor) (w : world) :
  map settings_of (snd (fst (main_loop n ms w))) = map settings_of ms.
Proof.
  revert ms w. induction n as [| n IH]; intros ms w; [reflexivity |].
  cbn [main_loop]. pose proof (update_all_settings ms w) as H.
  destruct (update_all ms w) as [[[[] | e] ms'] w']; cbn [fst snd] in H.
  - rewrite IH. exact H.
  - exact H.
Qed.

(** X16. No update changes the settings of a monitor: its kind, its
    zones, and the url, headers, timeout and frequency of a health
    monitor or the two colours and the speed of a pulse monitor are the
    same after any update, returned or raised, and after any number of
    iterations of the loop of [main], which also keeps the list of
    monitors in its order. *)
Theorem updates_keep_settings :
  (forall m w, settings_of (snd (fst (update m w))) = settings_of m)
  /\ (forall n monitors w,
         map settings_of (snd (fst (main_loop n monitors w)))
         = map settings_of monitors).
Proof. split; [exact update_settings | exact main_loop_settings]. Qed.

Lemma update_all_offline (ms : list monitor) (w : world) :
  forallb (fun m => negb (is_health m)) ms = true ->
  http_log (snd (update_all ms w)) = http_log w
  /\ clock_reads (snd (update_all ms w)) = clock_reads w.
Proof.
  revert w. induction ms as [| m ms IH]; intros w Hms; [auto |].
  cbn [forallb] in Hms. apply andb_true_iff in Hms. destruct Hms as [Hm Hms].
  apply negb_true_iff in Hm.
  cbn [update_all]. pose proof (update_offline m w Hm) as [H1 H2].
  destruct (update m w) as [[[[] | e] m'] w']; cbn [snd] in *; [| auto].
  specialize (IH w' Hms). destruct (update_all ms w') as [[r ms'] w''].
  cbn [snd] in *. destruct IH as [IH1 IH2]. split; congruence.
Qed.

Lemma forallb_settings (f : monitor -> bool) (ms ms' : list monitor) :
  (forall m m', settings_of m = settings_of m' -> f m = f m') ->
  map settings_of ms' = map settings_of ms ->
  forallb f ms' = forallb f ms.
Proof.
  intros Hf. revert ms'. induction ms as [| m ms IH]; intros [| m' ms'] H;
    try discriminate; [reflexivity |].
  cbn [map] in H. injection H as Hm Hms.
  cbn [forallb]. rewrite (Hf m' m Hm), (IH ms' Hms). reflexivity.
Qed.

(** X17. A loop that runs no health monitor stays off the network and
    off the clock: after any number of iterations over load, pulse or
    base monitors no request has been sent and [time.time()] has not been
    called, whatever the outcome of the updates. *)
Theorem loop_without_health_monitor_is_offline
    (n : nat) (monitors : list monitor) (w : world) :
  forallb (fun m => negb (is_health m)) monitors = true ->
  http_log (snd (main_loop n monitors w)) = http_log w
  /\ clock_reads (snd (main_loop n monitors w)) = clock_reads w.
Proof.
  revert monitors w. induction n as [| n IH]; intros ms w Hms; [auto |].
  cbn [main_loop]. pose proof (update_all_offline ms w Hms) as [H1 H2].
  pose proof (update_all_settings ms w) as Hset.
  destruct (update_all ms w) as [[[[] | e] ms'] w']; cbn [fst snd] in *;
    [| auto].
  destruct (IH ms' w') as [IH1 IH2].
  - rewrite <- Hms. apply forallb_settings; [| exact Hset].
    intros m m' H. apply settings_determine in H.
    destruct H as (_ & -> & _). reflexivity.
  - split; congruence.
Qed.

Lemma update_all_ok (ms : list monitor) (w : world) :
  all_writable w ->
  Forall steady ms ->
  exists ms' w',
    update_all ms w = (Ok tt, ms', w')
    /\ all_writable w'
    /\ Forall steady ms'
    /\ (forallb writes_every_tick ms = true ->
        length (device_log w')
        = (zone_count ms + length (device_log w))%nat).
Proof.
  revert w. induction ms as [| m ms IH]; intros w Hw Hms.
  - exists [], w. split; [reflexivity |]. split; [exact Hw |].
    split; [constructor | reflexivity].
  - inversion Hms as [| ? ? Hm Hms']; subst.
    destruct (update_ok m w Hw Hm) as (m' & w1 & E1 & Hw1 & Hm' & Hlen1).
    destruct (IH w1 Hw1 Hms') as (ms' & w2 & E2 & Hw2 & Hst & Hlen2).
    exists (m' :: ms'), w2. cbn [update_all]. rewrite E1, E2.
    split; [reflexivity |]. split; [exact Hw2 |].
    split; [constructor; assumption |].
    cbn [forallb zone_count foldr]. intros Hall.
    apply andb_true_iff in Hall. destruct Hall as [Ht Hts].
    rewrite (Hlen2 Hts), (proj1 (Hlen1 Ht)). unfold zone_count. lia.
Qed.

Lemma update_all_app (ms rest : list monitor) (w : world) :
  update_all (ms ++ rest)%list w
  = match update_all ms w with
    | (Ok _, ms', w1) =>
        let '(r, rest', w2) := update_all rest w1 in
        (r, (ms' ++ rest')%list, w2)
    | (Raise e, ms', w1) => (Raise e, (ms' ++ rest)%list, w1)
    end.
Proof.
  revert w. induction ms as [| m0 ms IH]; intros w.
  - cbn [app update_all].
    destruct (update_all rest w) as [[r rest'] w2]. reflexivity.
  - cbn [app update_all].
    destruct (update m0 w) as [[[[] | e] m0'] w0]; [| reflexivity].
    rewrite IH.
    destruct (update_all ms w0) as [[[[] | e] ms'] w1]; [| reflexivity].
    destruct (update_all rest w1) as [[r rest'] w2]. reflexivity.
Qed.

(** X18. With a writable device, the loop of [main] over health and
    pulse monitors never raises, provided each pulse monitor has colours
    of three channels of magnitude up to 2^52, a position within 0..100
    and a speed that is not negative: every iteration updates every
    monitor, whatever the endpoint answers and also when every request
    fails. *)
Theorem loop_never_raises (n : nat) (monitors : list monitor) (w : world) :
  all_writable w ->
  Forall steady monitors ->
  forallb (fun m => negb (is_load m)) monitors = true ->
  exists monitors' w',
    main_loop n monitors w = (Ok tt, monitors', w')
    /\ all_writable w' /\ Forall steady monitors'.
Proof.
  revert monitors w. induction n as [| n IH]; intros ms w Hw Hms Hnl.
  - exists ms, w. split; [reflexivity |]. split; assumption.
  - destruct (update_all_ok ms w Hw Hms) as (ms' & w' & E & Hw' & Hst & _).
    cbn [main_loop]. rewrite E. apply IH; [exact Hw' | exact Hst |].
    rewrite <- Hnl. apply forallb_settings.
    + intros m m' H. apply settings_determine in H.
      destruct H as (_ & _ & -> & _). reflexivity.
    + pose proof (update_all_settings ms w) as Hset. rewrite E in Hset.
      exact Hset.
Qed.

Lemma zone_count_settings (ms ms' : list monitor) :
  map settings_of ms' = map settings_of ms -> zone_count ms' = zone_count ms.
Proof.
  revert ms'. induction ms as [| m ms IH]; intros [| m' ms'] H;
    try discriminate; [reflexivity |].
  cbn [map] in H. injection H as Hm Hms.
  cbn [zone_count foldr]. fold (zone_count ms') (zone_count ms).
  apply settings_determine in Hm. destruct Hm as (-> & _).
  rewrite (IH ms' Hms). reflexivity.
Qed.

(** X19. Load and pulse monitors are not rate-limited: with a writable
    device and steady pulse monitors (three channels of magnitude up to
    2^52 per colour, position within 0..100, speed not negative), [n]
    iterations of the loop over load and pulse monitors add to the device
    log [n] times the number of zones they own between them, one write
    per zone and per iteration. *)
Theorem loop_writes_every_zone_every_tick
    (n : nat) (monitors : list monitor) (w : world) :
  all_writable w ->
  Forall steady monitors ->
  forallb writes_every_tick monitors = true ->
  length (device_log (snd (main_loop n monitors w)))
  = (n * zone_count monitors + length (device_log w))%nat.
Proof.
  revert monitors w. induction n as [| n IH]; intros ms w Hw Hst Ht;
    [reflexivity |].
  destruct (update_all_ok ms w Hw Hst) as (ms' & w' & E & Hw' & Hst' & Hlen).
  pose proof (update_all_settings ms w) as Hset. rewrite E in Hset.
  cbn [fst snd] in Hset.
  cbn [main_loop]. rewrite E. rewrite IH.
  - rewrite (Hlen Ht), (zone_count_settings _ _ Hset). lia.
  - exact Hw'.
  - exact Hst'.
  - rewrite <- Ht. apply forallb_settings; [| exact Hset].
    intros m m' H. apply settings_determine in H.
    destruct H as (_ & _ & _ & ->). reflexivity.
Qed.

(** X20. An exception is not isolated: when the monitors before it were
    updated and the update of a monitor raises, the pass ends there with
    that exception, the monitors after it in the list are left as they
    were, not updated, and the loop of [main] ends with the same
    exception and the same state. *)
Theorem failure_ends_the_loop
    (before before' after : list monitor) (m m' : monitor)
    (w w0 w' : world) (e : exn) :
  update_all before w = (Ok tt, before', w0) ->
  update m w0 = (Raise e, m', w') ->
  update_all (before ++ m :: after)%list w
  = (Raise e, (before' ++ m' :: after)%list, w')
  /\ (forall n,
         main_loop (S n) (before ++ m :: after)%list w
         = (Raise e, (before' ++ m' :: after)%list, w')).
Proof.
  intros Eb Em.
  assert (E : update_all (before ++ m :: after)%list w
              = (Raise e, (before' ++ m' :: after)%list, w')).
  { rewrite update_all_app, Eb. cbn [update_all]. rewrite Em. reflexivity. }
  split; [exact E |].
  intros n. cbn [main_loop]. rewrite E. reflexivity.
Qed.

End Scheduler.

Lemma pulse0_steady : steady (Pulse pulse0).
Proof.
  cbn [steady]. split; [reflexivity |].
  split; [apply blue_and_red_bounded |].
  split; [apply blue_and_red_bounded |]. simpl. lia.
Qed.

Lemma loop_without_health_monitor_is_offline_witness :
  http_log (snd (main_loop (R := exact_arithmetic) 10
                   [Pulse pulse0; Load load0] world0)) = []
  /\ clock_reads (snd (main_loop (R := exact_arithmetic) 10
                         [Pulse pulse0; Load load0] world0)) = O.
Proof.
  apply (loop_without_health_monitor_is_offline (R := exact_arithmetic)).
  reflexivity.
Defined.

Lemma loop_never_raises_witness :
  exists monitors' w',
    main_loop (R := exact_arithmetic) 5
      [Health (health_at 0); Pulse pulse0]
      (world_of RequestException 200)
    = (Ok tt, monitors', w')
    /\ all_writable w' /\ Forall steady monitors'.
Proof.
  apply (loop_never_raises (R := exact_arithmetic)).
  - intros path. reflexivity.
  - constructor; [exact I |]. constructor; [exact pulse0_steady |].
    constructor.
  - reflexivity.
Defined.

Lemma loop_writes_every_zone_every_tick_witness :
  length (device_log (snd (main_loop (R := exact_arithmetic) 7
                             [Pulse pulse0; Load load0] world0)))
  = (7 * zone_count [Pulse pulse0; Load load0] + 0)%nat.
Proof.
  apply (loop_writes_every_zone_every_tick (R := exact_arithmetic)).
  - exact world0_writable.
  - constructor; [exact pulse0_steady |]. constructor; [exact I |].
    constructor.
  - reflexivity.
Defined.

Lemma failure_ends_the_loop_witness :
  exists before' w0,
    update_all (R := exact_arithmetic) [Load load0] world0
    = (Ok tt, before', w0)
    /\ main_loop (R := exact_arithmetic) 3
         ([Load load0] ++ Pulse pulse_short :: [Pulse pulse0])%list world0
       = (Raise IndexError,
          (before' ++ Pulse pulse_short :: [Pulse pulse0])%list, w0).
Proof.
  destruct (update_all_ok (R := exact_arithmetic) [Load load0] world0
              world0_writable ltac:(repeat constructor))
    as (before' & w0 & Eb & _).
  exists before', w0. split; [exact Eb |].
  apply (proj2 (failure_ends_the_loop (R := exact_arithmetic)
                  [Load load0] before' [Pulse pulse0]
                  (Pulse pulse_short) (Pulse pulse_short)
                  world0 w0 w0 IndexError Eb
                  ltac:(unfold update;
                        rewrite (pulse_short_index_error pulse_short w0
                                   ltac:(left; simpl; lia)
                                   ltac:(split; repeat constructor;
                                         rewrite pow_52; simpl; lia));
                        reflexivity))).
Defined.

(** ** Monitors that share the device *)

Section Sharing.
Context {R : Rounding}.

(** X21. Zones are not owned: when several monitors claim the same zone,
    the last one in the list wins.  After a pass over steady monitors
    with a writable device, every zone file of the last monitor, a load
    or pulse monitor, holds that monitor's colour, whatever the monitors
    before it wrote. *)
Theorem last_monitor_wins_its_zones
    (monitors : list monitor) (m : monitor) (w : world) :
  all_writable w ->
  Forall steady (monitors ++ [m])%list ->
  writes_every_tick m = true ->
  exists monitors' m' w',
    update_all (monitors ++ [m])%list w
    = (Ok tt, (monitors' ++ [m'])%list, w')
    /\ forall l, l ∈ zones_of m ->
         content (device_log w') (fn_prefix ++ l) = Some (colour_of m').
Proof.
  intros Hw Hst Ht. apply Forall_app in Hst. destruct Hst as [Hms Hm].
  inversion Hm as [| ? ? Hm0 _]; subst.
  destruct (update_all_ok monitors w Hw Hms) as (ms' & w1 & E & Hw1 & _).
  destruct (update_ok m w1 Hw1 Hm0) as (m' & w2 & Em & _ & _ & Hc).
  exists ms', m', w2. rewrite update_all_app, E. cbn [update_all].
  rewrite Em. split; [reflexivity | exact (proj2 (Hc Ht))].
Qed.

Lemma update_request_bound (m : monitor) (w : world) :
  (length (http_log (snd (update m w)))
   <= (if is_health m then 1 else 0) + length (http_log w))%nat.
Proof.
  destruct m as [m0 | s | l | p].
  - cbn. lia.
  - unfold update, is_health.
    pose proof (site_health_update_requests s w) as H.
    destruct (site_health_update s w) as [[r s'] w']. cbn [snd] in *.
    rewrite H. destruct (rate_limited s (now w)); cbn [length]; lia.
  - destruct (update_offline (Load l) w eq_refl) as [-> _]. cbn. lia.
  - destruct (update_offline (Pulse p) w eq_refl) as [-> _]. cbn. lia.
Qed.

Lemma update_all_request_bound (ms : list monitor) (w : world) :
  (length (http_log (snd (update_all ms w)))
   <= health_count ms + length (http_log w))%nat.
Proof.
  revert w. induction ms as [| m ms IH]; intros w; [cbn; lia |].
  cbn [update_all]. pose proof (update_request_bound m w) as Hm.
  assert (Hc : health_count (m :: ms)
               = ((if is_health m then 1 else 0) + health_count ms)%nat)
    by reflexivity.
  destruct (update m w) as [[[[] | e] m'] w']; cbn [snd] in *.
  - specialize (IH w'). destruct (update_all ms w') as [[r ms'] w''].
    cbn [snd] in *. lia.
  - lia.
Qed.

Lemma health_count_settings (ms ms' : list monitor) :
  map settings_of ms' = map settings_of ms ->
  health_count ms' = health_count ms.
Proof.
  revert ms'. induction ms as [| m ms IH]; intros [| m' ms'] H;
    try discriminate; [reflexivity |].
  cbn [map] in H. injection H as Hm Hms.
  apply settings_determine in Hm. destruct Hm as (_ & Hh & _).
  unfold health_count in *. cbn [foldr]. rewrite Hh, (IH ms' Hms).
  reflexivity.
Qed.

(** X22. The loop sends at most one request per health monitor and per
    iteration: after [n] iterations the request log has grown by at most
    [n] times the number of health monitors, however the updates end. *)
Theorem loop_request_bound (n : nat) (monitors : list monitor) (w : world) :
  (length (http_log (snd (main_loop n monitors w)))
   <= n * health_count monitors + length (http_log w))%nat.
Proof.
  revert monitors w. induction n as [| n IH]; intros ms w; [cbn; lia |].
  cbn [main_loop]. pose proof (update_all_request_bound ms w) as Hb.
  pose proof (update_all_settings ms w) as Hset.
  destruct (update_all ms w) as [[[[] | e] ms'] w']; cbn [fst snd] in *.
  - specialize (IH ms' w'). rewrite (health_count_settings _ _ Hset) in IH.
    lia.
  - lia.
Qed.

End Sharing.

Lemma last_monitor_wins_its_zones_witness :
  exists monitors' m' w',
    update_all (R := exact_arithmetic) ([Load load0] ++ [Pulse pulse0])%list
      world0
    = (Ok tt, (monitors' ++ [m'])%list, w')
    /\ content (device_log w') (fn_prefix ++ "left") = Some (colour_of m').
Proof.
  destruct (last_monitor_wins_its_zones (R := exact_arithmetic)
              [Load load0] (Pulse pulse0) world0 world0_writable
              ltac:(constructor;
                    [exact I | constructor; [exact pulse0_steady | constructor]])
              eq_refl)
    as (ms' & m' & w' & E & Hc).
  exists ms', m', w'. split; [exact E |].
  apply Hc. change ("left" ∈ ({[ "left" ]} : gset string)).
  apply elem_of_singleton. reflexivity.
Defined.

(** Channels too large for a float: the quotient of line 133 raises,
    also before the missing channel of a short colour is reached; a sum
    that is infinite raises in [rgb_to_str], after a missing channel
    would have. *)
Example pulse_overflow_in_division :
  fst (fst (pulse_update (R := exact_arithmetic)
              (pulse_of (monitor_on ["left"]) (10 ^ 400, 0, 0) (255, 0, 0)
                 0 5) world0))
  = Raise OverflowError.
Proof. vm_compute. reflexivity. Qed.

Example pulse_overflow_before_index_error :
  fst (fst (pulse_update (R := exact_arithmetic)
              {| p_monitor := monitor_on ["left"]; a_colour := [10 ^ 400; 0];
                 b_colour := [255; 0; 0]; position := 0; speed := 5 |}
              world0))
  = Raise OverflowError.
Proof. vm_compute. reflexivity. Qed.

Example pulse_infinite_sum :
  fst (fst (pulse_update (R := exact_arithmetic)
              (pulse_of (monitor_on ["left"])
                 (2 * (2 ^ 1024 - 2 ^ 971), 0, 0)
                 (2 * (2 ^ 1024 - 2 ^ 971), 0, 0) 50 5) world0))
  = Raise OverflowError.
Proof. vm_compute. reflexivity. Qed.

Example pulse_index_error_before_infinite_sum :
  fst (fst (pulse_update (R := exact_arithmetic)
              {| p_monitor := monitor_on ["left"];
                 a_colour := [2 * (2 ^ 1024 - 2 ^ 971); 0; 0];
                 b_colour := [2 * (2 ^ 1024 - 2 ^ 971); 0];
                 position := 50; speed := 5 |} world0))
  = Raise IndexError.
Proof. vm_compute. reflexivity. Qed.
